(** * CLMM-Rebalancer: the TypeScript executor scripts and the orchestrator core

    The repository's executor is four Node scripts (fetch-pool, fetch-position,
    withdraw-all, open-position).  Each script is embedded below in a module of
    its own, as a function from the script's environment (arguments, process
    environment, answers of the RPC node and of the Orca SDK) to the trace of
    what the process does and the way it ends. *)

From Stdlib Require Import ZArith QArith Qabs Qminmax Lia Lqa.
From stdpp Require Import gmap strings list pretty.
From Equations Require Import Equations.

Local Open Scope Z_scope.
Set Warnings "-register-all,-clear-no-such-hyp".
Set Default Proof Using "Type".

(** ** JavaScript values shared by the scripts *)

(** A call that either returns or throws; a thrown value is kept as the text
    the scripts print for it ([err instanceof Error ? err.message : String(err)]). *)
Inductive Result (A : Type) : Type :=
| Returns (a : A)
| Throws (msg : string).
Arguments Returns {A} a.
Arguments Throws {A} msg.

(** [ToInt32] of a number that holds an integer: the operand conversion of
    JavaScript's [&] and [>>]. *)
Definition ToInt32 (x : Z) : Z :=
  let m := x mod 2 ^ 32 in
  if m <? 2 ^ 31 then m else m - 2 ^ 32.

(** [a & b] *)
Definition js_and (a b : Z) : Z := Z.land (ToInt32 a) (ToInt32 b).

(** [a >> n] *)
Definition js_sar (a n : Z) : Z := Z.shiftr (ToInt32 a) (n mod 32).

(** [new Uint8Array(numbers)]: every element is taken modulo 256. *)
Definition Uint8Array (numbers : list Z) : list Z :=
  (fun x => x mod 256) <$> numbers.

(** The characters of a string, each as a one-character string: what
    [s[i]] and [for (const char of s)] yield.  Strings are sequences of
    8-bit characters: for a string of ASCII characters these are the
    characters JavaScript iterates.  A character outside ASCII is one code
    point to JavaScript and several 8-bit characters here; none is in the
    base58 alphabet, so this touches only the text of the decoder's error for
    such a character, not which strings decode nor to what. *)
Fixpoint chars (s : string) : list string :=
  match s with
  | EmptyString => []
  | String c rest => String c EmptyString :: chars rest
  end.

(** The truthiness test [if (s)] on a string that may be [undefined]: only a
    non-empty string passes. *)
Definition truthy (s : option string) : option string :=
  match s with
  | Some s => if decide (s = "") then None else Some s
  | None => None
  end.

(** A JavaScript number (a double), kept as the rational it holds; the model
    only compares numbers and prints them. *)
Inductive number : Type :=
| NaN
| NegInfinity
| Finite (q : Q)
| PosInfinity.

Definition isNaN (x : number) : bool :=
  match x with NaN => true | _ => false end.

(** [a >= b] on numbers: false as soon as one side is [NaN]. *)
Definition number_ge (a b : number) : bool :=
  match a, b with
  | NaN, _ | _, NaN => false
  | _, NegInfinity => true
  | PosInfinity, _ => true
  | NegInfinity, _ => false
  | _, PosInfinity => false
  | Finite x, Finite y => Qle_bool y x
  end.

(** The values the scripts hand to [JSON.stringify].  [JInt] is a number
    that holds an integer read from the chain, [JNumber] any other number. *)
Inductive Json : Type :=
| JBool (b : bool)
| JInt (n : Z)
| JNumber (x : number)
| JString (s : string)
| JArray (items : list Json)
| JObject (fields : list (string * Json)).

(** [obj.key] of a printed object. *)
Definition field (key : string) (j : Json) : option Json :=
  match j with
  | JObject fields => snd <$> List.find (fun kv => bool_decide (kv.1 = key)) fields
  | _ => None
  end.

(** ** Data read from the chain and returned by the SDK *)

(** The error of a simulated or landed transaction: a non-null object or
    string, kept as the text [JSON.stringify] gives for it. *)
Record TransactionError := { stringified : string }.

Record PositionData := {
  pos_whirlpool : string;
  tickLowerIndex : Z;
  tickUpperIndex : Z;
  pos_liquidity : Z;
  feeOwedA : Z;
  feeOwedB : Z }.

Record WhirlpoolData := {
  tokenMintA : string;
  tokenMintB : string;
  tickSpacing : Z;
  tickCurrentIndex : Z;
  sqrtPrice : Z;
  pool_liquidity : Z;
  feeRate : Z }.

Record Signer := { signer_address : string; keyPair : string }.

Record Quote := { tokenEstA : Z; tokenEstB : Z; liquidityDelta : Z }.

Record CloseInstructions := {
  close_instructions : list string;
  close_quote : Quote;
  feesQuote_feeOwedA : Z;
  feesQuote_feeOwedB : Z;
  rewardsQuote_rewards : list Z }.

Record OpenInstructions := {
  open_quote : Quote;
  open_positionMint : string;
  initializationCost : Z;
  callback_id : string }.

Record Simulation := { sim_err : option TransactionError }.

Record SignatureStatus := {
  status_err : option TransactionError;
  confirmationStatus : option string }.

(** Which token amount [openConcentratedPosition] is given. *)
Inductive LiquidityParam : Type :=
| tokenA (amount : Z)
| tokenB (amount : Z).

(** ** Calls that leave the script

    Every call of a library, of the RPC node or of the platform is one
    constructor; its arguments are the ones the script passes.  The [attempt]
    of [getSignatureStatuses] counts the polls made before it, so that the
    node may answer each poll differently. *)
Inductive Call : Type :=
| createKeyPairSignerFromBytes (bytes : list Z)
| readFileSync (path : string)
| JSON_parse (text : string)
| setDefaultFunder (signer : Signer)
| setNativeMintWrappingStrategy (strategy : string)
| createSolanaRpc (rpcUrl : string)
| setWhirlpoolsConfig (network : string)
| address (s : string)
| getPositionAddress (positionMint : string)
| fetchPosition (rpc positionAddress : string)
| fetchWhirlpool (rpc whirlpoolAddress : string)
| getAccountInfo (rpc mint : string)
| sqrtPriceToPrice (sqrtPrice : Z) (decimalsA decimalsB : option Z)
| tickIndexToPrice (tickIndex : Z) (decimalsA decimalsB : option Z)
| closePositionInstructions (rpc positionMint : string) (slippageBps : Z) (signer : Signer)
| getLatestBlockhash (rpc : string)
| createTransactionMessage (version : Z)
| setTransactionMessageFeePayer (feePayer message : string)
| setTransactionMessageLifetimeUsingBlockhash (blockhash message : string)
| appendTransactionMessageInstructions (instructions : list string) (message : string)
| compileTransaction (message : string)
| signTransaction (keyPair compiledTx : string)
| getBase64EncodedWireTransaction (signedTx : string)
| getSignatureFromTransaction (signedTx : string)
| simulateTransaction (rpc txBase64 : string)
| sendTransaction (rpc txBase64 : string)
| getSignatureStatuses (rpc signature : string) (attempt : nat)
| setRpc (rpcUrl : string)
| setPayerFromBytes (bytes : list Z)
| setPriorityFeeSetting (maxCapLamports : Z)
| BigInt (s : string)
| openConcentratedPosition (whirlpool : string) (param : LiquidityParam)
    (lowerPrice upperPrice : number) (slippageBps : Z)
| callback (id : string).

(** What each call yields when it returns. *)
Definition Answer (c : Call) : Type :=
  match c with
  | createKeyPairSignerFromBytes _ => Signer
  | readFileSync _ => string
  | JSON_parse _ => list Z
  | setDefaultFunder _ => unit
  | setNativeMintWrappingStrategy _ => unit
  | createSolanaRpc _ => string
  | setWhirlpoolsConfig _ => unit
  | address _ => string
  | getPositionAddress _ => string
  | fetchPosition _ _ => PositionData
  | fetchWhirlpool _ _ => WhirlpoolData
  | getAccountInfo _ _ => option (list Z)
  | sqrtPriceToPrice _ _ _ => number
  | tickIndexToPrice _ _ _ => number
  | closePositionInstructions _ _ _ _ => CloseInstructions
  | getLatestBlockhash _ => string
  | createTransactionMessage _ => string
  | setTransactionMessageFeePayer _ _ => string
  | setTransactionMessageLifetimeUsingBlockhash _ _ => string
  | appendTransactionMessageInstructions _ _ => string
  | compileTransaction _ => string
  | signTransaction _ _ => string
  | getBase64EncodedWireTransaction _ => string
  | getSignatureFromTransaction _ => string
  | simulateTransaction _ _ => Simulation
  | sendTransaction _ _ => string
  | getSignatureStatuses _ _ _ => option SignatureStatus
  | setRpc _ => string
  | setPayerFromBytes _ => unit
  | setPriorityFeeSetting _ => unit
  | BigInt _ => Z
  | openConcentratedPosition _ _ _ _ _ => OpenInstructions
  | callback _ => string
  end.

(** The environment of one run of a script.  The answer to a call depends
    on the call alone; the polls of one signature differ by their attempt. *)
Record World := {
  argv : list string;                      (* process.argv *)
  env : gmap string string;                (* process.env *)
  oracle : forall c : Call, Result (Answer c);
  parseFloat : string -> number;
  number_toString : number -> string }.

(** ** What a run does

    A run is the trace of its observable events, in order, and the way it
    ends: the script's [main] returns, an exception escapes it, or
    [process.exit] stops the process. *)
Inductive Event : Type :=
| ConsoleLog (value : Json) (space : nat)   (* console.log(JSON.stringify(value, null, space)) *)
| ConsoleError (text : string)
| Sleep (ms : Z)                           (* a setTimeout that was awaited *)
| Called (c : Call)
| ConsoleErrorValue (label thrown : string). (* console.error(label, err.message || err) *)

Inductive Completion (A : Type) : Type :=
| Normal (a : A)
| Thrown (msg : string)
| Exited (code : Z).
Arguments Normal {A} a.
Arguments Thrown {A} msg.
Arguments Exited {A} code.

Definition Run (A : Type) : Type := list Event * Completion A.

Definition trace {A} (r : Run A) : list Event := r.1.
Definition completion {A} (r : Run A) : Completion A := r.2.

Global Instance Run_ret : MRet Run := fun A a => ([], Normal a).

Global Instance Run_bind : MBind Run := fun A B k m =>
  match m with
  | (t, Normal a) => let '(t', c) := k a in (t ++ t', c)
  | (t, Thrown msg) => (t, Thrown msg)
  | (t, Exited code) => (t, Exited code)
  end.

(** [try { body } catch (err) { handler }]: [process.exit] is not caught. *)
Definition try_catch {A} (body : Run A) (handler : string -> Run A) : Run A :=
  match body with
  | (t, Thrown msg) => let '(t', c) := handler msg in (t ++ t', c)
  | r => r
  end.

Definition emit (e : Event) : Run unit := ([e], Normal tt).
Definition console_log (value : Json) (space : nat) : Run unit := emit (ConsoleLog value space).
Definition console_error (text : string) : Run unit := emit (ConsoleError text).

(** [console.error(label, err.message || err)] for the thrown value [err]
    that the model keeps as [thrown]: standard error gets the label and then
    the value's message or, when it has none or an empty one, the value
    itself as Node inspects it (an [Error] with its stack). *)
Definition console_error_value (label thrown : string) : Run unit :=
  emit (ConsoleErrorValue label thrown).
Definition sleep (ms : Z) : Run unit := emit (Sleep ms).
Definition process_exit {A} (code : Z) : Run A := ([], Exited code).
Definition throw {A} (msg : string) : Run A := ([], Thrown msg).

Definition of_result {A} (r : Result A) : Run A :=
  match r with
  | Returns a => mret a
  | Throws msg => throw msg
  end.

(** An external call: it is recorded, then returns or throws as the
    environment says. *)
Definition call (w : World) (c : Call) : Run (Answer c) :=
  ([Called c], match oracle w c with Returns a => Normal a | Throws msg => Thrown msg end).

(** [process.env.NAME || fallback] *)
Definition env_or (w : World) (name fallback : string) : string :=
  match env w !! name with
  | Some s => if decide (s = "") then fallback else s
  | None => fallback
  end.

(** What a trace leaves on standard output: the printed values, in order. *)
Fixpoint stdout (t : list Event) : list Json :=
  match t with
  | [] => []
  | ConsoleLog value _ :: t => value :: stdout t
  | _ :: t => stdout t
  end.

(** The delays a trace waits for, in order. *)
Fixpoint sleeps (t : list Event) : list Z :=
  match t with
  | [] => []
  | Sleep ms :: t => ms :: sleeps t
  | _ :: t => sleeps t
  end.

(** The external calls of a trace, in order. *)
Fixpoint calls (t : list Event) : list Call :=
  match t with
  | [] => []
  | Called c :: t => c :: calls t
  | _ :: t => calls t
  end.

(** The exit code of the process: 0 when [main] returns, the argument of
    [process.exit], and 1 when an exception escapes [main] (Node's
    unhandled rejection). *)
Definition exit_code {A} (r : Run A) : Z :=
  match completion r with
  | Normal _ => 0
  | Thrown _ => 1
  | Exited code => code
  end.

(** ** withdraw-all *)

Module WithdrawAll.

Definition ALPHABET : string :=
  "123456789ABCDEFGHJKLMNPQRSTUVWXYZabcdefghijkmnopqrstuvwxyz".

(** [for (let i = 0; i < ALPHABET.length; i++) ALPHABET_MAP[ALPHABET[i]] = i] *)
Fixpoint fill_map (cs : list string) (i : Z) (m : gmap string Z) : gmap string Z :=
  match cs with
  | [] => m
  | c :: cs => fill_map cs (i + 1) (<[c := i]> m)
  end.

Definition ALPHABET_MAP : gmap string Z := fill_map (chars ALPHABET) 0 ∅.

(** The inner [for] loop over [bytes]: multiply the little-endian number by
    58 and add [carry]; returns the updated bytes and the carry left. *)
Fixpoint mul_add (bytes : list Z) (carry : Z) : list Z * Z :=
  match bytes with
  | [] => ([], carry)
  | b :: rest =>
      let carry := carry + b * 58 in
      let '(rest', carry') := mul_add rest (js_sar carry 8) in
      (js_and carry 255 :: rest', carry')
  end.

(** [while (carry > 0) { bytes.push(carry & 0xff); carry >>= 8; }] *)
Equations? push_carry (bytes : list Z) (carry : Z) : list Z
  by wf (Z.to_nat carry) lt :=
  push_carry bytes carry with decide (0 < carry) := {
    | left _ => push_carry (bytes ++ [js_and carry 255]) (js_sar carry 8)
    | right _ => bytes }.
Proof.
  clear push_carry.
  assert (js_sar carry 8 < carry); [|lia].
  unfold js_sar, ToInt32. change (8 mod 32) with 8.
  rewrite Z.shiftr_div_pow2 by lia.
  pose proof (Z.mod_pos_bound carry (2 ^ 32) ltac:(lia)) as Hm.
  pose proof (Z.mod_le carry (2 ^ 32) ltac:(lia) ltac:(lia)) as Hle.
  destruct (Z.ltb_spec (carry mod 2 ^ 32) (2 ^ 31)).
  - apply Z.div_lt_upper_bound; lia.
  - apply Z.div_lt_upper_bound; lia.
Qed.

(** The first loop over the characters of [encoded]. *)
Fixpoint decode_chars (cs : list string) (bytes : list Z) : Result (list Z) :=
  match cs with
  | [] => Returns bytes
  | char :: cs =>
      match ALPHABET_MAP !! char with
      | None => Throws ("Invalid base58 character: " +:+ char)
      | Some value =>
          let '(bytes, carry) := mul_add bytes value in
          decode_chars cs (push_carry bytes carry)
      end
  end.

(** The second loop: one zero byte per leading ["1"]. *)
Fixpoint leading_zeros (cs : list string) (bytes : list Z) : list Z :=
  match cs with
  | [] => bytes
  | char :: cs =>
      if decide (char = "1") then leading_zeros cs (bytes ++ [0]) else bytes
  end.

Definition decodeBase58 (encoded : string) : Result (list Z) :=
  if decide (String.length encoded = 0%nat) then Returns (Uint8Array [])
  else
    match decode_chars (chars encoded) [0] with
    | Throws msg => Throws msg
    | Returns bytes =>
        Returns (Uint8Array (rev (leading_zeros (chars encoded) bytes)))
    end.

Definition WithdrawError (error positionMint : string) : Json :=
  JObject [("success", JBool false);
           ("error", JString error);
           ("positionMint", JString positionMint)].

Definition WithdrawResult (positionMint : string) (close : CloseInstructions)
    (signature : string) : Json :=
  JObject [("success", JBool true);
           ("positionMint", JString positionMint);
           ("amountAWithdrawn", JString (pretty (tokenEstA (close_quote close))));
           ("amountBWithdrawn", JString (pretty (tokenEstB (close_quote close))));
           ("feeCollectedA", JString (pretty (feesQuote_feeOwedA close)));
           ("feeCollectedB", JString (pretty (feesQuote_feeOwedB close)));
           ("rewardsCollected",
             JArray ((fun r => JString (pretty r)) <$> rewardsQuote_rewards close));
           ("txid", JString signature)].

(** Print a [WithdrawError] and stop the process with code 1. *)
Definition fail {A} (error positionMint : string) : Run A :=
  console_log (WithdrawError error positionMint) 0;; process_exit 1.

Definition loadKeypair (w : World) : Run Signer :=
  match truthy (env w !! "SOLANA_PRIVATE_KEY") with
  | Some privateKeyBase58 =>
      keypairBytes ← of_result (decodeBase58 privateKeyBase58);
      call w (createKeyPairSignerFromBytes keypairBytes)
  | None =>
      match truthy (env w !! "SOLANA_KEYPAIR_PATH") with
      | Some keypairPath =>
          text ← call w (readFileSync keypairPath);
          keypairData ← call w (JSON_parse text);
          call w (createKeyPairSignerFromBytes (Uint8Array keypairData))
      | None =>
          throw "No keypair found. Set SOLANA_PRIVATE_KEY (base58) or SOLANA_KEYPAIR_PATH (JSON file path)"
      end
  end.

Definition maxRetries : nat := 30.

Definition is_confirmed (st : SignatureStatus) : bool :=
  bool_decide (confirmationStatus st = Some "confirmed"
               ∨ confirmationStatus st = Some "finalized").

(** The confirmation loop from iteration [i] on, with [remaining] iterations
    to go; it yields the flag [confirmed]. *)
Fixpoint wait_for_confirmation (w : World) (rpc signature positionMint : string)
    (i remaining : nat) : Run bool :=
  match remaining with
  | O => mret false
  | S remaining =>
      sleep 2000;;
      status ← call w (getSignatureStatuses rpc signature i);
      match status with
      | Some st =>
          match status_err st with
          | Some err =>
              fail ("Transaction failed: " +:+ stringified err) positionMint
          | None =>
              if is_confirmed st then mret true
              else wait_for_confirmation w rpc signature positionMint (S i) remaining
          end
      | None => wait_for_confirmation w rpc signature positionMint (S i) remaining
      end
  end.

(** The body of the [try] block. *)
Definition withdraw (w : World) (positionMint : string) : Run unit :=
  signer ← loadKeypair w;
  call w (setDefaultFunder signer);;
  call w (setNativeMintWrappingStrategy "ata");;
  let rpcUrl := env_or w "SOLANA_RPC_URL" "https://api.mainnet-beta.solana.com" in
  rpc ← call w (createSolanaRpc rpcUrl);
  call w (setWhirlpoolsConfig "solanaMainnet");;
  positionMintAddress ← call w (address positionMint);
  positionAddress ← call w (getPositionAddress positionMintAddress);
  position ← call w (fetchPosition rpc positionAddress);
  if decide (pos_liquidity position = 0) then
    fail "Position has no liquidity to withdraw" positionMint
  else
    let slippageBps := 100 in
    close ← call w (closePositionInstructions rpc positionMintAddress slippageBps signer);
    latestBlockhash ← call w (getLatestBlockhash rpc);
    message ← call w (createTransactionMessage 0);
    message ← call w (setTransactionMessageFeePayer (signer_address signer) message);
    message ← call w (setTransactionMessageLifetimeUsingBlockhash latestBlockhash message);
    txMessage ← call w (appendTransactionMessageInstructions (close_instructions close) message);
    compiledTx ← call w (compileTransaction txMessage);
    signedTx ← call w (signTransaction (keyPair signer) compiledTx);
    txBase64 ← call w (getBase64EncodedWireTransaction signedTx);
    simulation ← call w (simulateTransaction rpc txBase64);
    match sim_err simulation with
    | Some err => fail ("Simulation failed: " +:+ stringified err) positionMint
    | None =>
        signature ← call w (getSignatureFromTransaction signedTx);
        call w (sendTransaction rpc txBase64);;
        confirmed ← wait_for_confirmation w rpc signature positionMint 0 maxRetries;
        match confirmed with
        | true => console_log (WithdrawResult positionMint close signature) 2
        | false => fail "Transaction confirmation timeout" positionMint
        end
    end.

Definition main (w : World) : Run unit :=
  match truthy (argv w !! 2%nat) with
  | None => fail "Usage: node withdraw-all.js <POSITION_MINT>" ""
  | Some positionMint =>
      try_catch (withdraw w positionMint) (fun msg => fail msg positionMint)
  end.

End WithdrawAll.

(** ** open-position *)

Module OpenPosition.

Definition ALPHABET : string :=
  "123456789ABCDEFGHJKLMNPQRSTUVWXYZabcdefghijkmnopqrstuvwxyz".

(** [for (let i = 0; i < ALPHABET.length; i++) ALPHABET_MAP[ALPHABET[i]] = i] *)
Fixpoint fill_map (cs : list string) (i : Z) (m : gmap string Z) : gmap string Z :=
  match cs with
  | [] => m
  | c :: cs => fill_map cs (i + 1) (<[c := i]> m)
  end.

Definition ALPHABET_MAP : gmap string Z := fill_map (chars ALPHABET) 0 ∅.

(** The inner [for] loop over [bytes], with the carry it leaves. *)
Fixpoint mul_add (bytes : list Z) (carry : Z) : list Z * Z :=
  match bytes with
  | [] => ([], carry)
  | b :: rest =>
      let carry := carry + b * 58 in
      let '(rest', carry') := mul_add rest (js_sar carry 8) in
      (js_and carry 255 :: rest', carry')
  end.

(** [while (carry > 0) { bytes.push(carry & 0xff); carry >>= 8; }] *)
Equations? push_carry (bytes : list Z) (carry : Z) : list Z
  by wf (Z.to_nat carry) lt :=
  push_carry bytes carry with decide (0 < carry) := {
    | left _ => push_carry (bytes ++ [js_and carry 255]) (js_sar carry 8)
    | right _ => bytes }.
Proof.
  clear push_carry.
  assert (js_sar carry 8 < carry); [|lia].
  unfold js_sar, ToInt32. change (8 mod 32) with 8.
  rewrite Z.shiftr_div_pow2 by lia.
  pose proof (Z.mod_pos_bound carry (2 ^ 32) ltac:(lia)) as Hm.
  pose proof (Z.mod_le carry (2 ^ 32) ltac:(lia) ltac:(lia)) as Hle.
  destruct (Z.ltb_spec (carry mod 2 ^ 32) (2 ^ 31)).
  - apply Z.div_lt_upper_bound; lia.
  - apply Z.div_lt_upper_bound; lia.
Qed.

(** The first loop over the characters of [encoded]. *)
Fixpoint decode_chars (cs : list string) (bytes : list Z) : Result (list Z) :=
  match cs with
  | [] => Returns bytes
  | char :: cs =>
      match ALPHABET_MAP !! char with
      | None => Throws ("Invalid base58 character: " +:+ char)
      | Some value =>
          let '(bytes, carry) := mul_add bytes value in
          decode_chars cs (push_carry bytes carry)
      end
  end.

(** The second loop: one zero byte per leading ["1"]. *)
Fixpoint leading_zeros (cs : list string) (bytes : list Z) : list Z :=
  match cs with
  | [] => bytes
  | char :: cs =>
      if decide (char = "1") then leading_zeros cs (bytes ++ [0]) else bytes
  end.

Definition decodeBase58 (encoded : string) : Result (list Z) :=
  if decide (String.length encoded = 0%nat) then Returns (Uint8Array [])
  else
    match decode_chars (chars encoded) [0] with
    | Throws msg => Throws msg
    | Returns bytes =>
        Returns (Uint8Array (rev (leading_zeros (chars encoded) bytes)))
    end.

Definition OpenPositionError (error : string) : Json :=
  JObject [("success", JBool false); ("error", JString error)].

Definition OpenPositionResult (opened : OpenInstructions)
    (lowerPrice upperPrice : number) (signature : string) : Json :=
  JObject [("success", JBool true);
           ("positionMint", JString (open_positionMint opened));
           ("lowerPrice", JNumber lowerPrice);
           ("upperPrice", JNumber upperPrice);
           ("tokenADeposited", JString (pretty (tokenEstA (open_quote opened))));
           ("tokenBDeposited", JString (pretty (tokenEstB (open_quote opened))));
           ("liquidityDelta", JString (pretty (liquidityDelta (open_quote opened))));
           ("txid", JString signature)].

Definition fail {A} (error : string) : Run A :=
  console_log (OpenPositionError error) 0;; process_exit 1.

Definition loadKeypairBytes (w : World) : Run (list Z) :=
  match truthy (env w !! "SOLANA_PRIVATE_KEY") with
  | Some privateKeyBase58 => of_result (decodeBase58 privateKeyBase58)
  | None =>
      match truthy (env w !! "SOLANA_KEYPAIR_PATH") with
      | Some keypairPath =>
          text ← call w (readFileSync keypairPath);
          keypairData ← call w (JSON_parse text);
          mret (Uint8Array keypairData)
      | None =>
          throw "No keypair found. Set SOLANA_PRIVATE_KEY (base58) or SOLANA_KEYPAIR_PATH"
      end
  end.

Definition printUsage {A} : Run A :=
  fail "Usage: node open-position.js <WHIRLPOOL_ADDRESS> <LOWER_PRICE> <UPPER_PRICE> <TOKEN_A_AMOUNT | TOKEN_B_AMOUNT> [--token-a | --token-b]".

Definition maxRetries : nat := 15.

Definition is_confirmed (st : SignatureStatus) : bool :=
  bool_decide (confirmationStatus st = Some "confirmed"
               ∨ confirmationStatus st = Some "finalized").

(** The three variables the confirmation loop sets. *)
Record Confirmation := {
  confirmed : bool;
  failed : bool;
  errorMsg : string }.

(** The confirmation loop from iteration [i] on, with [remaining]
    iterations to go; a [break] leaves it with the variables as set. *)
Fixpoint wait_for_confirmation (w : World) (rpc signature : string)
    (i remaining : nat) : Run Confirmation :=
  match remaining with
  | O => mret {| confirmed := false; failed := false; errorMsg := "" |}
  | S remaining =>
      sleep 2000;;
      status ← call w (getSignatureStatuses rpc signature i);
      match status with
      | Some st =>
          match status_err st with
          | Some err =>
              mret {| confirmed := false; failed := true; errorMsg := stringified err |}
          | None =>
              if is_confirmed st
              then mret {| confirmed := true; failed := false; errorMsg := "" |}
              else wait_for_confirmation w rpc signature (S i) remaining
          end
      | None => wait_for_confirmation w rpc signature (S i) remaining
      end
  end.

(** The body of the [try] block. *)
Definition open (w : World) (whirlpoolAddress : string)
    (lowerPrice upperPrice : number) (tokenAmount : Z) (useTokenB : bool) : Run unit :=
  let rpcUrl := env_or w "SOLANA_RPC_URL" "https://api.mainnet-beta.solana.com" in
  rpc ← call w (setRpc rpcUrl);
  call w (setWhirlpoolsConfig "solanaMainnet");;
  keypairBytes ← loadKeypairBytes w;
  call w (setPayerFromBytes keypairBytes);;
  call w (setNativeMintWrappingStrategy "ata");;
  call w (setPriorityFeeSetting 1000000);;
  let param := if useTokenB then tokenB tokenAmount else tokenA tokenAmount in
  console_error ("Opening position on pool: " +:+ whirlpoolAddress);;
  console_error ("Price range: " +:+ number_toString w lowerPrice +:+ " - "
                 +:+ number_toString w upperPrice);;
  console_error ("Token amount: " +:+ pretty tokenAmount +:+ " ("
                 +:+ (if useTokenB then "tokenB" else "tokenA") +:+ ")");;
  let slippageBps := 100 in
  whirlpool ← call w (address whirlpoolAddress);
  opened ← call w (openConcentratedPosition whirlpool param lowerPrice upperPrice slippageBps);
  let quote := open_quote opened in
  console_error ("Quote: tokenA=" +:+ pretty (tokenEstA quote) +:+ ", tokenB="
                 +:+ pretty (tokenEstB quote) +:+ ", liquidity="
                 +:+ pretty (liquidityDelta quote));;
  console_error ("Position mint: " +:+ open_positionMint opened);;
  console_error ("Initialization cost: " +:+ pretty (initializationCost opened)
                 +:+ " lamports");;
  console_error "Sending transaction...";;
  signature ← call w (callback (callback_id opened));
  console_error ("Transaction sent: " +:+ signature);;
  c ← wait_for_confirmation w rpc signature 0 maxRetries;
  if failed c then fail ("Transaction failed: " +:+ errorMsg c)
  else
    let result := OpenPositionResult opened lowerPrice upperPrice signature in
    (if confirmed c then mret tt
     else console_error "Confirmation timeout - check Solscan for status");;
    console_log result 2.

Definition main (w : World) : Run unit :=
  match drop 2 (argv w) with
  | whirlpoolAddress :: arg1 :: arg2 :: arg3 :: _ =>
      let args := drop 2 (argv w) in
      let lowerPrice := parseFloat w arg1 in
      let upperPrice := parseFloat w arg2 in
      tokenAmount ← call w (BigInt arg3);
      let useTokenB := bool_decide ("--token-b" ∈ args) in
      if isNaN lowerPrice || isNaN upperPrice || number_ge lowerPrice upperPrice then
        fail "Invalid price range: lowerPrice must be < upperPrice"
      else
        try_catch (open w whirlpoolAddress lowerPrice upperPrice tokenAmount useTokenB)
                  (fun msg => fail msg)
  | _ => printUsage
  end.

End OpenPosition.

(** ** fetch-pool *)

Module FetchPool.

Definition PoolInfo (w : World) (poolAddress : string) (pool : WhirlpoolData)
    (currentPrice : number) : Json :=
  JObject [("whirlpool", JString poolAddress);
           ("mintA", JString (tokenMintA pool));
           ("mintB", JString (tokenMintB pool));
           ("tickSpacing", JInt (tickSpacing pool));
           ("currentTick", JInt (tickCurrentIndex pool));
           ("currentSqrtPrice", JString (pretty (sqrtPrice pool)));
           ("currentPrice", JString (number_toString w currentPrice));
           ("liquidity", JString (pretty (pool_liquidity pool)));
           ("feeRate", JInt (feeRate pool))].

Definition fail {A} (error : string) : Run A :=
  console_log (JObject [("error", JString error)]) 0;; process_exit 1.

(** The body of the [try] block. *)
Definition fetch (w : World) (poolAddress : string) : Run unit :=
  let rpcUrl := env_or w "SOLANA_RPC_URL" "https://api.mainnet-beta.solana.com" in
  rpc ← call w (createSolanaRpc rpcUrl);
  call w (setWhirlpoolsConfig "solanaMainnet");;
  whirlpoolAddress ← call w (address poolAddress);
  pool ← call w (fetchWhirlpool rpc whirlpoolAddress);
  let decimalsA := 9 in
  let decimalsB := 6 in
  currentPrice ← call w (sqrtPriceToPrice (sqrtPrice pool) (Some decimalsA) (Some decimalsB));
  console_log (PoolInfo w poolAddress pool currentPrice) 2.

Definition main (w : World) : Run unit :=
  match truthy (argv w !! 2%nat) with
  | None => fail "Usage: node fetch-pool.js <WHIRLPOOL_ADDRESS>"
  | Some poolAddress => try_catch (fetch w poolAddress) (fun msg => fail msg)
  end.

End FetchPool.

(** ** fetch-position *)

Module FetchPosition.

Definition PositionSnapshot (w : World) (positionMint positionAddress : string)
    (position : PositionData) (whirlpool : WhirlpoolData)
    (currentPrice lowerPrice upperPrice : number) (inRange : bool) : Json :=
  JObject [("positionMint", JString positionMint);
           ("positionAddress", JString positionAddress);
           ("whirlpool", JString (pos_whirlpool position));
           ("currentTick", JInt (tickCurrentIndex whirlpool));
           ("currentSqrtPrice", JString (pretty (sqrtPrice whirlpool)));
           ("currentPrice", JString (number_toString w currentPrice));
           ("tickSpacing", JInt (tickSpacing whirlpool));
           ("lowerTick", JInt (tickLowerIndex position));
           ("upperTick", JInt (tickUpperIndex position));
           ("lowerPrice", JString (number_toString w lowerPrice));
           ("upperPrice", JString (number_toString w upperPrice));
           ("liquidity", JString (pretty (pos_liquidity position)));
           ("mintA", JString (tokenMintA whirlpool));
           ("mintB", JString (tokenMintB whirlpool));
           ("inRange", JBool inRange);
           ("feeOwedA", JString (pretty (feeOwedA position)));
           ("feeOwedB", JString (pretty (feeOwedB position)))].

(** The answer of [getAccountInfo] is the account's data, decoded from
    base64, or [None] for a missing account; [data[44]] of a shorter
    buffer is [undefined], here [None]. *)
Definition fetchTokenDecimals (w : World) (rpc mint : string) : Run (option Z) :=
  mintAccount ← call w (getAccountInfo rpc mint);
  match mintAccount with
  | None => mret (Some 6)
  | Some data => mret (data !! 44%nat)
  end.

(** [await Promise.all([a, b])]: both promises are started before either
    is awaited, so the calls of both are made; when both reject, the model
    reports the first one's error. *)
Definition promise_all {A B} (a : Run A) (b : Run B) : Run (A * B) :=
  (a.1 ++ b.1,
   match a.2, b.2 with
   | Normal x, Normal y => Normal (x, y)
   | Thrown msg, _ => Thrown msg
   | Exited code, _ => Exited code
   | Normal _, Thrown msg => Thrown msg
   | Normal _, Exited code => Exited code
   end).

Definition snapshot (w : World) (positionMint : string) : Run unit :=
  let rpcUrl := env_or w "SOLANA_RPC_URL" "https://api.mainnet-beta.solana.com" in
  rpc ← call w (createSolanaRpc rpcUrl);
  call w (setWhirlpoolsConfig "solanaMainnet");;
  positionMintAddress ← call w (address positionMint);
  positionAddress ← call w (getPositionAddress positionMintAddress);
  position ← call w (fetchPosition rpc positionAddress);
  whirlpool ← call w (fetchWhirlpool rpc (pos_whirlpool position));
  decimals ← promise_all (fetchTokenDecimals w rpc (tokenMintA whirlpool))
                         (fetchTokenDecimals w rpc (tokenMintB whirlpool));
  let decimalsA := decimals.1 in
  let decimalsB := decimals.2 in
  currentPrice ← call w (sqrtPriceToPrice (sqrtPrice whirlpool) decimalsA decimalsB);
  lowerPrice ← call w (tickIndexToPrice (tickLowerIndex position) decimalsA decimalsB);
  upperPrice ← call w (tickIndexToPrice (tickUpperIndex position) decimalsA decimalsB);
  let currentTick := tickCurrentIndex whirlpool in
  let inRange :=
    (tickLowerIndex position <=? currentTick) && (currentTick <? tickUpperIndex position) in
  console_log (PositionSnapshot w positionMint positionAddress position whirlpool
                 currentPrice lowerPrice upperPrice inRange) 2.

(** [main().catch((err) => { console.error("Error:", err.message || err);
    process.exit(1); })]: the usage error and every exception end on standard
    error with exit code 1.  A rejection with [null] or [undefined], for which
    [err.message] itself throws inside the handler, is not a value of
    [Result]. *)
Definition main (w : World) : Run unit :=
  try_catch
    match truthy (argv w !! 2%nat) with
    | None =>
        console_error "Usage: node fetch-position.js <POSITION_MINT>";;
        process_exit 1
    | Some positionMint => snapshot w positionMint
    end
    (fun thrown => console_error_value "Error:" thrown;; process_exit 1).

End FetchPosition.

(** ** The orchestrator core

    The Trigger Evaluator, the Range Selector and the Rebalance Workflow live
    in the repository's Python runner, which is not among the sources; they
    are written here from the specification.  Prices are rationals. *)

Module Orchestrator.

Local Open Scope Q_scope.

(** Modelled from the spec: the configuration of section 3, loaded once
    per run. *)
Record RebalanceConfig := {
  pool_address : string;
  position_mint : option string;
  check_interval_seconds : Z;
  out_of_range : bool;
  edge_threshold_pct : Q;
  range_width_pct : Q;
  target_sol_pct : Q;
  dry_run : bool;
  min_swap_value_usd : Q;
  slippage_bps : Z }.

(** Modelled from the spec: the snapshot of section 3, made by the Position
    Monitor each cycle. *)
Record PositionSnapshot := {
  positionMint : string;
  pool : string;
  currentTick : Z;
  currentPrice : Q;
  lowerTick : Z;
  upperTick : Z;
  lowerPrice : Q;
  upperPrice : Q;
  liquidity : Z;
  feesOwedA : Z;
  feesOwedB : Z;
  inRange : bool }.

(** Modelled from the spec: the Evaluator's decision, none / out-of-range /
    near-edge. *)
Inductive Decision : Type :=
| DecisionNone
| OutOfRange
| NearEdge.

(** Modelled from the spec: [range_width = upperPrice - lowerPrice]. *)
Definition range_width (s : PositionSnapshot) : Q := upperPrice s - lowerPrice s.

(** Modelled from the spec: the distance from the current price to
    whichever boundary is closer. *)
Definition distance_to_nearer_boundary (s : PositionSnapshot) : Q :=
  let to_lower := Qabs (currentPrice s - lowerPrice s) in
  let to_upper := Qabs (upperPrice s - currentPrice s) in
  if Qle_bool to_lower to_upper then to_lower else to_upper.

(** Modelled from the spec: the Trigger Evaluator of section 4.2
    ([evaluate(snapshot, config)]), whose code is missing.  Out-of-range is
    checked first; near-edge applies to a position in range; no snapshot
    (no position configured yet) gives [DecisionNone]. *)
Definition evaluate (snapshot : option PositionSnapshot) (config : RebalanceConfig)
    : Decision :=
  match snapshot with
  | None => DecisionNone
  | Some s =>
      if negb (inRange s) && out_of_range config then OutOfRange
      else if inRange s
              && Qle_bool (distance_to_nearer_boundary s / range_width s)
                          (edge_threshold_pct config / 100)
      then NearEdge
      else DecisionNone
  end.

(** Modelled from the spec: the Range Selector's error. *)
Inductive RangeError : Type := InvalidRangeError.

(** Modelled from the spec: the Range Selector of section 4.3
    ([selectRange(currentPrice, config)]), whose code is missing. *)
Definition selectRange (currentPrice : Q) (config : RebalanceConfig)
    : RangeError + Q * Q :=
  if Qle_bool (range_width_pct config) 0 then inl InvalidRangeError
  else inr (currentPrice * (1 - range_width_pct config / 200),
            currentPrice * (1 + range_width_pct config / 200)).

(** Modelled from the spec: [pending_step], the next step to execute. *)
Inductive Step : Type := none | withdraw | swap | open.

(** Modelled from the spec: what a successful withdraw records. *)
Record WithdrawnAmounts := {
  amountAWithdrawn : Z;
  amountBWithdrawn : Z;
  feeCollectedA : Z;
  feeCollectedB : Z }.

(** Modelled from the spec: the durable record of section 3. *)
Record WorkflowState := {
  current_position_mint : option string;
  last_rebalance : option Z;
  pending_rebalance : bool;
  pending_step : Step;
  withdrawn_amounts : option WithdrawnAmounts }.

(** Modelled from the spec: the swap the swap step asks for, with its value
    in USD. *)
Record SwapPlan := {
  inputMint : string;
  outputMint : string;
  amount : Z;
  usd_value : Q }.

(** Modelled from the spec: the collaborators of the Workflow, that is the
    Executor Client, the swap service and the clock.  The spec says what the swap delta is computed
    from (the stored amounts and the configuration), not its formula, so
    the computation is a collaborator too. *)
Record Collaborators := {
  fetchLiquidity : string -> Result Z;
  withdrawAll : string -> Result WithdrawnAmounts;
  plan_swap : WithdrawnAmounts -> RebalanceConfig -> SwapPlan;
  swap_tokens : SwapPlan -> Z -> Result unit;
  fetchCurrentPrice : string -> Result Q;
  openPosition : string -> Q -> Q -> Result string;
  now : Z }.

(** Modelled from the spec: what the Workflow does, in order. *)
Inductive Action : Type :=
| FetchedLiquidity (mint : string)
| Withdrew (mint : string)
| Swapped (plan : SwapPlan) (slippage : Z)
| SkippedSwap (plan : SwapPlan)
| FetchedPrice (pool : string)
| Opened (pool : string) (lower upper : Q)
| Saved (state : WorkflowState)
| Logged (step : Step).

(** Modelled from the spec: a step yields the state it persisted, or halts
    with a message and leaves the persisted state as it was. *)
Definition Workflow (A : Type) : Type := list Action * Result A.

(** Modelled from the spec: steps run strictly in sequence; a halted step
    stops the workflow. *)
Definition and_then {A B} (m : Workflow A) (k : A -> Workflow B) : Workflow B :=
  match m with
  | (t, Returns a) => let '(t', r) := k a in (t ++ t', r)
  | (t, Throws msg) => (t, Throws msg)
  end.

(** Modelled from the spec: one action and what came of it. *)
Definition did {A} (a : Action) (r : Result A) : Workflow A := ([a], r).

(** Modelled from the spec: the State Store's atomic [save]. *)
Definition save (st : WorkflowState) : Workflow WorkflowState :=
  did (Saved st) (Returns st).

(** Modelled from the spec: transition 1 of section 4.4. *)
Definition step_withdraw (c : Collaborators) (st : WorkflowState)
    : Workflow WorkflowState :=
  match current_position_mint st with
  | None => ([], Throws "no position to withdraw")
  | Some mint =>
      and_then (did (FetchedLiquidity mint) (fetchLiquidity c mint)) (fun liquidity =>
      if decide (liquidity = 0%Z) then
        save {| current_position_mint := None;
                last_rebalance := last_rebalance st;
                pending_rebalance := pending_rebalance st;
                pending_step := swap;
                withdrawn_amounts := withdrawn_amounts st |}
      else
        and_then (did (Withdrew mint) (withdrawAll c mint)) (fun amounts =>
        save {| current_position_mint := None;
                last_rebalance := last_rebalance st;
                pending_rebalance := pending_rebalance st;
                pending_step := swap;
                withdrawn_amounts := Some amounts |}))
  end.

(** Modelled from the spec: transition 2 of section 4.4. *)
Definition step_swap (c : Collaborators) (config : RebalanceConfig)
    (st : WorkflowState) : Workflow WorkflowState :=
  match withdrawn_amounts st with
  | None => ([], Throws "no withdrawn amounts")
  | Some amounts =>
      let plan := plan_swap c amounts config in
      let st' := {| current_position_mint := current_position_mint st;
                    last_rebalance := last_rebalance st;
                    pending_rebalance := pending_rebalance st;
                    pending_step := open;
                    withdrawn_amounts := withdrawn_amounts st |} in
      if Qle_bool (min_swap_value_usd config) (usd_value plan) then
        and_then (did (Swapped plan (slippage_bps config))
                      (swap_tokens c plan (slippage_bps config)))
                 (fun _ => save st')
      else
        and_then (did (SkippedSwap plan) (Returns tt)) (fun _ => save st')
  end.

(** Modelled from the spec: transition 3 of section 4.4. *)
Definition step_open (c : Collaborators) (config : RebalanceConfig)
    (st : WorkflowState) : Workflow WorkflowState :=
  and_then (did (FetchedPrice (pool_address config))
                (fetchCurrentPrice c (pool_address config))) (fun price =>
  match selectRange price config with
  | inl InvalidRangeError => ([], Throws "InvalidRangeError")
  | inr (lower, upper) =>
      and_then (did (Opened (pool_address config) lower upper)
                    (openPosition c (pool_address config) lower upper)) (fun mint =>
      save {| current_position_mint := Some mint;
              last_rebalance := Some (now c);
              pending_rebalance := false;
              pending_step := none;
              withdrawn_amounts := withdrawn_amounts st |})
  end).

(** Modelled from the spec: resumption at [pending_step] (section 4.4). The
    steps that remain are run in order; in dry-run mode each is only
    logged. *)
Definition resume (c : Collaborators) (config : RebalanceConfig)
    (st : WorkflowState) : Workflow WorkflowState :=
  if dry_run config then
    match pending_step st with
    | withdraw => ([Logged withdraw; Logged swap; Logged open], Returns st)
    | swap => ([Logged swap; Logged open], Returns st)
    | open => ([Logged open], Returns st)
    | none => ([], Returns st)
    end
  else
    match pending_step st with
    | withdraw =>
        and_then (step_withdraw c st) (fun st =>
        and_then (step_swap c config st) (fun st => step_open c config st))
    | swap => and_then (step_swap c config st) (fun st => step_open c config st)
    | open => step_open c config st
    | none => ([], Returns st)
    end.

(** Modelled from the spec: a new workflow is in flight and starts at the
    withdraw step. *)
Definition begin (st : WorkflowState) : WorkflowState :=
  {| current_position_mint := current_position_mint st;
     last_rebalance := last_rebalance st;
     pending_rebalance := true;
     pending_step := withdraw;
     withdrawn_amounts := withdrawn_amounts st |}.

(** Modelled from the spec: [decision != None]. *)
Definition triggered (decision : Decision) : bool :=
  match decision with
  | DecisionNone => false
  | OutOfRange | NearEdge => true
  end.

(** Modelled from the spec: the Workflow's entry of section 4.4,
    [run(decision, snapshot, config)] on the loaded state.  A pending
    workflow is resumed at [pending_step] without looking at the trigger; a
    new one starts at the withdraw step. *)
Definition run (c : Collaborators) (config : RebalanceConfig) (decision : Decision)
    (force_rebalance : bool) (st : WorkflowState) : Workflow WorkflowState :=
  if pending_rebalance st then resume c config st
  else if triggered decision || force_rebalance then
    if dry_run config then resume c config (begin st)
    else and_then (save (begin st)) (resume c config)
  else ([], Returns st).

End Orchestrator.

(** ** The confirmation loops, abstractly

    Both confirmation loops poll [getSignatureStatuses] and read the answer
    the same way. *)

(** What one poll tells the loop. *)
Inductive Poll : Type :=
| Pending                         (* no status yet, or not yet confirmed *)
| Confirmed
| Failed (err : TransactionError)
| Unreachable (msg : string).     (* the call threw *)

Definition confirmed_or_finalized (st : SignatureStatus) : bool :=
  bool_decide (confirmationStatus st = Some "confirmed"
               ∨ confirmationStatus st = Some "finalized").

Definition poll_answer (answer : Result (option SignatureStatus)) : Poll :=
  match answer with
  | Throws msg => Unreachable msg
  | Returns None => Pending
  | Returns (Some st) =>
      match status_err st with
      | Some err => Failed err
      | None => if confirmed_or_finalized st then Confirmed else Pending
      end
  end.

(** The polls of attempts [i], [i+1], ... with at most [n] of them: how many
    are made and what the last one tells. *)
Fixpoint settle (w : World) (rpc signature : string) (i n : nat) : nat * Poll :=
  match n with
  | O => (O, Pending)
  | S n =>
      match poll_answer (oracle w (getSignatureStatuses rpc signature i)) with
      | Pending => let '(k, p) := settle w rpc signature (S i) n in (S k, p)
      | p => (1%nat, p)
      end
  end.

(** The events of [k] polls from attempt [i] on. *)
Fixpoint polls (rpc signature : string) (i k : nat) : list Event :=
  match k with
  | O => []
  | S k => Sleep 2000 :: Called (getSignatureStatuses rpc signature i)
           :: polls rpc signature (S i) k
  end.

(** The node never reports the transaction as landed or failed. *)
Definition never_settles (w : World) : Prop :=
  forall rpc signature attempt,
    poll_answer (oracle w (getSignatureStatuses rpc signature attempt)) = Pending.

(** The confirmation loop was entered: its first poll was made. *)
Definition polling_started {A} (r : Run A) : Prop :=
  exists rpc signature, Called (getSignatureStatuses rpc signature 0) ∈ trace r.

(** A run reports success: [main] returns and the value it printed last has
    [success: true]. *)
Definition reports_success (r : Run unit) : Prop :=
  completion r = Normal tt
  /\ exists value, last (stdout (trace r)) = Some value
                   /\ field "success" value = Some (JBool true).

(** A run reports failure: the process exits with code 1 and the value it
    printed last has [success: false]. *)
Definition reports_failure (r : Run unit) : Prop :=
  completion r = Exited 1
  /\ exists value, last (stdout (trace r)) = Some value
                   /\ field "success" value = Some (JBool false).

(** The decimals of a mint as its account gives them: byte 44 of the account
    data, and 6 when the account is missing. *)
Definition mint_decimals (account : option (list Z)) : option Z :=
  match account with
  | None => Some 6
  | Some data => data !! 44%nat
  end.

(** ** Example environments *)

(** The double-quote character. *)
Definition dquote : string := String (Ascii.ascii_of_nat 34) EmptyString.

(** A mint account: 82 bytes, the decimals at offset 44. *)
Definition mint_account (decimals : Z) : list Z :=
  replicate 44 0 ++ [decimals] ++ replicate 37 0.

(** A node and an SDK that answer every call; the position's liquidity, the
    simulation's error and the status of each poll are given. *)
Definition example_oracle (liquidity : Z) (simulation_error : option TransactionError)
    (status : nat -> option SignatureStatus) (c : Call) : Result (Answer c) :=
  match c with
  | createKeyPairSignerFromBytes _ =>
      Returns {| signer_address := "Payer"; keyPair := "PayerKeyPair" |}
  | readFileSync _ => Returns "[1,2,3]"
  | JSON_parse _ => Returns [1; 2; 3]
  | setDefaultFunder _ => Returns tt
  | setNativeMintWrappingStrategy _ => Returns tt
  | createSolanaRpc rpcUrl => Returns rpcUrl
  | setWhirlpoolsConfig _ => Returns tt
  | address s => Returns s
  | getPositionAddress positionMint => Returns ("PositionOf" +:+ positionMint)
  | fetchPosition _ _ =>
      Returns {| pos_whirlpool := "Pool"; tickLowerIndex := -100; tickUpperIndex := 100;
                 pos_liquidity := liquidity; feeOwedA := 3; feeOwedB := 4 |}
  | fetchWhirlpool _ _ =>
      Returns {| tokenMintA := "MintA"; tokenMintB := "MintB"; tickSpacing := 64;
                 tickCurrentIndex := 5; sqrtPrice := 2 ^ 64; pool_liquidity := 1000;
                 feeRate := 3000 |}
  | getAccountInfo _ mint =>
      Returns (if decide (mint = "MintA") then Some (mint_account 8) else None)
  | sqrtPriceToPrice _ _ _ => Returns (Finite 100)
  | tickIndexToPrice tickIndex _ _ => Returns (Finite (inject_Z tickIndex))
  | closePositionInstructions _ _ _ _ =>
      Returns {| close_instructions := ["decreaseLiquidity"; "collectFees"; "closePosition"];
                 close_quote := {| tokenEstA := 700; tokenEstB := 900; liquidityDelta := liquidity |};
                 feesQuote_feeOwedA := 3; feesQuote_feeOwedB := 4;
                 rewardsQuote_rewards := [] |}
  | getLatestBlockhash _ => Returns "Blockhash"
  | createTransactionMessage _ => Returns "Message0"
  | setTransactionMessageFeePayer _ _ => Returns "Message1"
  | setTransactionMessageLifetimeUsingBlockhash _ _ => Returns "Message2"
  | appendTransactionMessageInstructions _ _ => Returns "Message3"
  | compileTransaction _ => Returns "CompiledTx"
  | signTransaction _ _ => Returns "SignedTx"
  | getBase64EncodedWireTransaction _ => Returns "TxBase64"
  | getSignatureFromTransaction _ => Returns "Signature"
  | simulateTransaction _ _ => Returns {| sim_err := simulation_error |}
  | sendTransaction _ _ => Returns "Signature"
  | getSignatureStatuses _ _ attempt => Returns (status attempt)
  | setRpc rpcUrl => Returns rpcUrl
  | setPayerFromBytes _ => Returns tt
  | setPriorityFeeSetting _ => Returns tt
  | BigInt _ => Returns 1000000
  | openConcentratedPosition _ _ _ _ _ =>
      Returns {| open_quote := {| tokenEstA := 1000000; tokenEstB := 98; liquidityDelta := 5000 |};
                 open_positionMint := "NewPositionMint";
                 initializationCost := 0;
                 callback_id := "send" |}
  | callback _ => Returns "Signature"
  end.

Definition example_world (argv : list string) (liquidity : Z)
    (simulation_error : option TransactionError)
    (status : nat -> option SignatureStatus) : World :=
  {| argv := argv;
     env := {[ "SOLANA_PRIVATE_KEY" := "2g" ]};
     oracle := example_oracle liquidity simulation_error status;
     parseFloat := fun s =>
       if decide (s = "95") then Finite 95
       else if decide (s = "105") then Finite 105 else NaN;
     number_toString := fun x =>
       match x with
       | Finite q => pretty (Qnum q) +:+ "/" +:+ pretty (Zpos (Qden q))
       | NaN => "NaN"
       | PosInfinity => "Infinity"
       | NegInfinity => "-Infinity"
       end |}.

Definition withdraw_argv : list string := ["node"; "withdraw-all.js"; "PositionMint"].

Definition open_argv : list string :=
  ["node"; "open-position.js"; "Pool"; "95"; "105"; "1000000"].

Definition account_in_use : TransactionError :=
  {| stringified := dquote +:+ "AccountInUse" +:+ dquote |}.

(** withdraw-all on a position that has no liquidity left. *)
Definition zero_liquidity_world : World :=
  example_world withdraw_argv 0 None (fun _ => None).

(** withdraw-all when the simulation of the transaction fails. *)
Definition simulation_error_world : World :=
  example_world withdraw_argv 5000 (Some account_in_use) (fun _ => None).

(** withdraw-all when the node never reports the transaction. *)
Definition withdraw_timeout_world : World :=
  example_world withdraw_argv 5000 None (fun _ => None).

(** open-position when the node never reports the transaction. *)
Definition open_timeout_world : World :=
  example_world open_argv 0 None (fun _ => None).

(** open-position when the transaction lands with an error. *)
Definition open_failed_world : World :=
  example_world open_argv 0 None
    (fun _ => Some {| status_err := Some account_in_use; confirmationStatus := None |}).

(** fetch-pool and fetch-position on a pool whose mint A has 8 decimals and
    whose mint B account is missing. *)
Definition fetch_world : World :=
  example_world ["node"; "fetch.js"; "Pool"] 5000 None (fun _ => None).

(** The snapshot fetch-position prints in [fetch_world]. *)
Definition fetch_world_snapshot : Json :=
  FetchPosition.PositionSnapshot fetch_world "Pool" "PositionOfPool"
    {| pos_whirlpool := "Pool"; tickLowerIndex := -100; tickUpperIndex := 100;
       pos_liquidity := 5000; feeOwedA := 3; feeOwedB := 4 |}
    {| tokenMintA := "MintA"; tokenMintB := "MintB"; tickSpacing := 64;
       tickCurrentIndex := 5; sqrtPrice := 2 ^ 64; pool_liquidity := 1000;
       feeRate := 3000 |}
    (Finite 100) (Finite (inject_Z (-100))) (Finite (inject_Z 100)) true.

(** ** Example inputs of the orchestrator core *)

Definition example_config : Orchestrator.RebalanceConfig :=
  {| Orchestrator.pool_address := "Pool";
     Orchestrator.position_mint := None;
     Orchestrator.check_interval_seconds := 60;
     Orchestrator.out_of_range := true;
     Orchestrator.edge_threshold_pct := 10;
     Orchestrator.range_width_pct := 10;
     Orchestrator.target_sol_pct := 50;
     Orchestrator.dry_run := false;
     Orchestrator.min_swap_value_usd := 1;
     Orchestrator.slippage_bps := 100 |}.

(** A position on (90, 110) with the price at 92: exactly at the 10%
    threshold. *)
Definition edge_snapshot : Orchestrator.PositionSnapshot :=
  {| Orchestrator.positionMint := "PositionMint";
     Orchestrator.pool := "Pool";
     Orchestrator.currentTick := 5;
     Orchestrator.currentPrice := 92;
     Orchestrator.lowerTick := -100;
     Orchestrator.upperTick := 100;
     Orchestrator.lowerPrice := 90;
     Orchestrator.upperPrice := 110;
     Orchestrator.liquidity := 5000;
     Orchestrator.feesOwedA := 3;
     Orchestrator.feesOwedB := 4;
     Orchestrator.inRange := true |}.

Definition example_amounts : Orchestrator.WithdrawnAmounts :=
  {| Orchestrator.amountAWithdrawn := 700;
     Orchestrator.amountBWithdrawn := 900;
     Orchestrator.feeCollectedA := 3;
     Orchestrator.feeCollectedB := 4 |}.

(** A state persisted after a withdraw that succeeded. *)
Definition swap_pending_state : Orchestrator.WorkflowState :=
  {| Orchestrator.current_position_mint := None;
     Orchestrator.last_rebalance := None;
     Orchestrator.pending_rebalance := true;
     Orchestrator.pending_step := Orchestrator.swap;
     Orchestrator.withdrawn_amounts := Some example_amounts |}.

Definition example_collaborators : Orchestrator.Collaborators :=
  {| Orchestrator.fetchLiquidity := fun _ => Returns 5000;
     Orchestrator.withdrawAll := fun _ => Returns example_amounts;
     Orchestrator.plan_swap := fun amounts _ =>
       {| Orchestrator.inputMint := "MintA"; Orchestrator.outputMint := "MintB";
          Orchestrator.amount := Orchestrator.amountAWithdrawn amounts / 2;
          Orchestrator.usd_value := 35 |};
     Orchestrator.swap_tokens := fun _ _ => Returns tt;
     Orchestrator.fetchCurrentPrice := fun _ => Returns 100%Q;
     Orchestrator.openPosition := fun _ _ _ => Returns "NewPositionMint";
     Orchestrator.now := 1700000000 |}.

(** ** What the base58 decoder computes *)

Definition is_byte (b : Z) : Prop := 0 <= b < 256.

(** The number a list of bytes holds, least significant byte first. *)
Fixpoint le_value (bytes : list Z) : Z :=
  match bytes with
  | [] => 0
  | b :: bytes => b + 256 * le_value bytes
  end.

(** The number a list of base-58 digits spells after [acc], most significant
    digit first. *)
Fixpoint base58_value (digits : list Z) (acc : Z) : Z :=
  match digits with
  | [] => acc
  | d :: digits => base58_value digits (acc * 58 + d)
  end.

(** ** More about the base58 decoder *)

(** How many ["1"] characters a string starts with. *)
Fixpoint leading_ones (cs : list string) : nat :=
  match cs with
  | [] => O
  | c :: cs => if decide (c = "1") then S (leading_ones cs) else O
  end.

(** An ASCII character: one character to JavaScript too. *)
Definition is_ascii (c : Ascii.ascii) : Prop := (Ascii.nat_of_ascii c < 128)%nat.

(** A base-58 digit. *)
Definition is_digit58 (d : Z) : Prop := 0 <= d < 58.

(** The characters of a string are in the alphabet, with these digits. *)
Definition spells (encoded : string) (digits : list Z) : Prop :=
  Forall2 (fun c d => WithdrawAll.ALPHABET_MAP !! c = Some d) (chars encoded) digits.

(** A list of bytes, most significant first, that holds its number in as few
    bytes as the decoder ever uses: the single byte 0, or a first byte that
    is not 0. *)
Definition shortest (body : list Z) : Prop :=
  body = [0] \/ exists b rest, body = b :: rest /\ b <> 0.

(** ** More ways to look at a trace *)

(** The waiting of a run: its delays and its polls of [getSignatureStatuses],
    in order. *)
Fixpoint waiting (t : list Event) : list Event :=
  match t with
  | [] => []
  | Sleep ms :: t => Sleep ms :: waiting t
  | Called (getSignatureStatuses rpc signature attempt) :: t =>
      Called (getSignatureStatuses rpc signature attempt) :: waiting t
  | _ :: t => waiting t
  end.

(** Every poll the run made left the transaction pending. *)
Definition polls_stay_pending {A} (w : World) (r : Run A) : Prop :=
  forall rpc signature attempt,
    Called (getSignatureStatuses rpc signature attempt) ∈ trace r ->
    poll_answer (oracle w (getSignatureStatuses rpc signature attempt)) = Pending.

(** The transactions a trace submits to the node, in order: the endpoint and
    the wire transaction of each [sendTransaction]. *)
Fixpoint sends (t : list Event) : list (string * string) :=
  match t with
  | [] => []
  | Called (sendTransaction rpc txBase64) :: t => (rpc, txBase64) :: sends t
  | _ :: t => sends t
  end.

(** The calls that only read: the SDK's configuration, address derivation,
    account reads and price conversions. *)
Definition reads_only (c : Call) : bool :=
  match c with
  | createSolanaRpc _ | setWhirlpoolsConfig _ | address _ | getPositionAddress _
  | fetchPosition _ _ | fetchWhirlpool _ _ | getAccountInfo _ _
  | sqrtPriceToPrice _ _ _ | tickIndexToPrice _ _ _ => true
  | _ => false
  end.

(** The polls before attempt [k] leave the transaction pending. *)
Definition pending_before (w : World) (rpc signature : string) (k : nat) : Prop :=
  forall j, (j < k)%nat ->
    poll_answer (oracle w (getSignatureStatuses rpc signature j)) = Pending.

(** ** More example environments *)

(** [w] with another process environment. *)
Definition with_env (variables : gmap string string) (w : World) : World :=
  {| argv := argv w; env := variables; oracle := oracle w;
     parseFloat := parseFloat w; number_toString := number_toString w |}.

(** [w] where the calls that [broken] names throw its message. *)
Definition with_broken (broken : Call -> option string) (w : World) : World :=
  {| argv := argv w; env := env w;
     oracle := fun c =>
       match broken c with
       | Some msg => Throws msg
       | None => oracle w c
       end;
     parseFloat := parseFloat w; number_toString := number_toString w |}.

Definition mainnet : string := "https://api.mainnet-beta.solana.com".

Definition confirmed_status : SignatureStatus :=
  {| status_err := None; confirmationStatus := Some "confirmed" |}.

(** The node knows nothing of the transaction at the first two polls, and
    reports [status] from the third on. *)
Definition from_third_poll (status : SignatureStatus) (attempt : nat)
    : option SignatureStatus :=
  if (attempt <? 2)%nat then None else Some status.

(** withdraw-all when the transaction is confirmed at the third poll. *)
Definition withdraw_confirmed_world : World :=
  example_world withdraw_argv 5000 None (from_third_poll confirmed_status).

(** The scripts with no key in the environment. *)
Definition withdraw_no_keypair_world : World := with_env ∅ withdraw_timeout_world.

Definition open_no_keypair_world : World := with_env ∅ open_timeout_world.

(** withdraw-all with a private key that has a ["0"] in it. *)
Definition malformed_key_world : World :=
  with_env {[ "SOLANA_PRIVATE_KEY" := "2g0x" ]} withdraw_timeout_world.

(** open-position with an amount that [BigInt] refuses. *)
Definition bad_amount_world : World :=
  with_broken
    (fun c => match c with
              | BigInt _ => Some "Cannot convert 1.5 to a BigInt"
              | _ => None
              end)
    (example_world ["node"; "open-position.js"; "Pool"; "95"; "105"; "1.5"]
       0 None (fun _ => None)).

(** The fetch scripts on a pool account that does not exist. *)
Definition missing_pool_world : World :=
  with_broken
    (fun c => match c with
              | fetchWhirlpool _ _ => Some "Account not found"
              | _ => None
              end)
    fetch_world.

(** A script started with no argument. *)
Definition no_arguments_world : World :=
  example_world ["node"; "script.js"] 0 None (fun _ => None).

(** A state persisted when a rebalance starts: the withdraw step is next. *)
Definition withdraw_pending_state : Orchestrator.WorkflowState :=
  {| Orchestrator.current_position_mint := Some "PositionMint";
     Orchestrator.last_rebalance := None;
     Orchestrator.pending_rebalance := true;
     Orchestrator.pending_step := Orchestrator.withdraw;
     Orchestrator.withdrawn_amounts := None |}.

(** The collaborators when the position has no liquidity left. *)
Definition drained_collaborators : Orchestrator.Collaborators :=
  {| Orchestrator.fetchLiquidity := fun _ => Returns 0;
     Orchestrator.withdrawAll := Orchestrator.withdrawAll example_collaborators;
     Orchestrator.plan_swap := Orchestrator.plan_swap example_collaborators;
     Orchestrator.swap_tokens := Orchestrator.swap_tokens example_collaborators;
     Orchestrator.fetchCurrentPrice := Orchestrator.fetchCurrentPrice example_collaborators;
     Orchestrator.openPosition := Orchestrator.openPosition example_collaborators;
     Orchestrator.now := Orchestrator.now example_collaborators |}.

(** ** Reasoning about runs

    [wp m Q] holds when the trace and the completion of [m] satisfy [Q]. *)
Definition wp {A} (m : Run A) (Q : list Event -> Completion A -> Prop) : Prop :=
  Q (trace m) (completion m).

(** * Proofs *)

(** ** Rules for [wp] *)

Lemma wp_elim {A} (m : Run A) Q : wp m Q -> Q (trace m) (completion m).
Proof. exact id. Qed.

Lemma wp_ret {A} (a : A) (Q : list Event -> Completion A -> Prop) :
  Q [] (Normal a) -> wp (mret a) Q.
Proof. exact id. Qed.

Lemma wp_bind {A B} (m : Run A) (k : A -> Run B) Q :
  wp m (fun t c =>
          match c with
          | Normal a => wp (k a) (fun t' c' => Q (t ++ t') c')
          | Thrown msg => Q t (Thrown msg)
          | Exited code => Q t (Exited code)
          end) ->
  wp (m ≫= k) Q.
Proof.
  destruct m as [t [a|msg|code]]; unfold wp; cbn; try done.
  destruct (k a) as [t' c']. done.
Qed.

Lemma wp_try_catch {A} (body : Run A) (handler : string -> Run A) Q :
  wp body (fun t c =>
             match c with
             | Thrown msg => wp (handler msg) (fun t' c' => Q (t ++ t') c')
             | _ => Q t c
             end) ->
  wp (try_catch body handler) Q.
Proof.
  destruct body as [t [a|msg|code]]; unfold wp; cbn; try done.
  destruct (handler msg) as [t' c']. done.
Qed.

Lemma wp_call (w : World) (c : Call) (Q : list Event -> Completion (Answer c) -> Prop) :
  (forall a, oracle w c = Returns a -> Q [Called c] (Normal a)) ->
  (forall msg, oracle w c = Throws msg -> Q [Called c] (Thrown msg)) ->
  wp (call w c) Q.
Proof.
  intros Hr Ht. unfold wp, call; cbn.
  destruct (oracle w c); auto.
Qed.

Lemma wp_emit (e : Event) (Q : list Event -> Completion unit -> Prop) :
  Q [e] (Normal tt) -> wp (emit e) Q.
Proof. exact id. Qed.

Lemma wp_exit {A} (code : Z) (Q : list Event -> Completion A -> Prop) :
  Q [] (Exited code) -> wp (process_exit code) Q.
Proof. exact id. Qed.

Lemma wp_throw {A} (msg : string) (Q : list Event -> Completion A -> Prop) :
  Q [] (Thrown msg) -> wp (throw msg) Q.
Proof. exact id. Qed.

Lemma wp_of_result {A} (r : Result A) (Q : list Event -> Completion A -> Prop) :
  (forall a, r = Returns a -> Q [] (Normal a)) ->
  (forall msg, r = Throws msg -> Q [] (Thrown msg)) ->
  wp (of_result r) Q.
Proof. intros Hr Ht. destruct r; unfold wp; cbn; auto. Qed.

Lemma wp_mono {A} (m : Run A) (Q Q' : list Event -> Completion A -> Prop) :
  wp m Q -> (forall t c, Q t c -> Q' t c) -> wp m Q'.
Proof. unfold wp. auto. Qed.

(** One step of symbolic execution of a script. *)
Ltac wp_step :=
  lazymatch goal with
  | |- wp (mbind _ _) _ => apply wp_bind
  | |- wp (try_catch _ _) _ => apply wp_try_catch
  | |- wp (call ?w ?c) ?Q => apply (wp_call w c Q); [intros ? ?|intros ? ?]
  | |- wp (of_result _) _ => apply wp_of_result; [intros ? ?|intros ? ?]
  | |- wp (mret _) _ => apply wp_ret
  | |- wp (emit _) _ => apply wp_emit
  | |- wp (console_log _ _) _ => apply wp_emit
  | |- wp (console_error _) _ => apply wp_emit
  | |- wp (console_error_value _ _) _ => apply wp_emit
  | |- wp (sleep _) _ => apply wp_emit
  | |- wp (process_exit _) _ => apply wp_exit
  | |- wp (throw _) _ => apply wp_throw
  | |- wp (WithdrawAll.fail _ _) _ => unfold WithdrawAll.fail
  | |- wp (OpenPosition.fail _) _ => unfold OpenPosition.fail
  | |- wp OpenPosition.printUsage _ => unfold OpenPosition.printUsage
  | |- wp (FetchPool.fail _) _ => unfold FetchPool.fail
  | |- wp (match ?x with _ => _ end) _ => destruct x eqn:?
  end; cbv beta iota.

(** Starts a proof about the trace and completion of [m]. *)
Ltac wp_start m :=
  pattern (trace m), (completion m); apply wp_elim.

(** ** Traces *)

Lemma stdout_app (t1 t2 : list Event) : stdout (t1 ++ t2) = stdout t1 ++ stdout t2.
Proof.
  induction t1 as [|[] t1 IH]; cbn; [done|..]; by rewrite ?IH.
Qed.

Lemma sleeps_app (t1 t2 : list Event) : sleeps (t1 ++ t2) = sleeps t1 ++ sleeps t2.
Proof.
  induction t1 as [|[] t1 IH]; cbn; [done|..]; by rewrite ?IH.
Qed.

Lemma calls_app (t1 t2 : list Event) : calls (t1 ++ t2) = calls t1 ++ calls t2.
Proof.
  induction t1 as [|[] t1 IH]; cbn; [done|..]; by rewrite ?IH.
Qed.

Lemma elem_of_calls (c : Call) (t : list Event) : c ∈ calls t <-> Called c ∈ t.
Proof.
  induction t as [|e t IH]; cbn.
  - by rewrite !elem_of_nil.
  - destruct e; rewrite ?elem_of_cons, IH; naive_solver.
Qed.

Lemma truthy_Some (s : option string) (x : string) :
  truthy s = Some x -> s = Some x /\ x <> "".
Proof.
  destruct s as [y|]; cbn; [|done].
  destruct (decide (y = "")); naive_solver.
Qed.

(** ** The polls of a confirmation loop *)

Section Polls.
Context (w : World) (rpc signature : string).

Lemma stdout_polls i k : stdout (polls rpc signature i k) = [].
Proof. revert i; induction k as [|k IH]; intros i; cbn; auto. Qed.

Lemma sleeps_polls i k : sleeps (polls rpc signature i k) = replicate k 2000.
Proof. revert i; induction k as [|k IH]; intros i; cbn; [done|]. by rewrite IH. Qed.

Lemma calls_polls i k :
  calls (polls rpc signature i k)
  = (fun j => getSignatureStatuses rpc signature j) <$> seq i k.
Proof. revert i; induction k as [|k IH]; intros i; cbn; [done|]. by rewrite IH. Qed.

Lemma elem_of_polls e i k :
  e ∈ polls rpc signature i k ->
  e = Sleep 2000 \/ exists j, e = Called (getSignatureStatuses rpc signature j) /\ (i <= j < i + k)%nat.
Proof.
  revert i; induction k as [|k IH]; intros i; cbn.
  - by rewrite elem_of_nil.
  - rewrite !elem_of_cons. intros [->|[->|Hin]]; [by left|right; exists i; split; [done|lia]|].
    destruct (IH _ Hin) as [->|(j & -> & Hj)]; [by left|].
    right. exists j. split; [done|lia].
Qed.

(** A loop never makes more polls than it is allowed. *)
Lemma settle_bound i n : ((settle w rpc signature i n).1 <= n)%nat.
Proof.
  revert i; induction n as [|n IH]; intros i; cbn; [done|].
  destruct (poll_answer _); cbn; try lia.
  specialize (IH (S i)). destruct (settle w rpc signature (S i) n); cbn in *. lia.
Qed.

(** A loop that ends with nothing settled has used every attempt. *)
Lemma settle_pending i n k :
  settle w rpc signature i n = (k, Pending) -> k = n.
Proof.
  revert i k; induction n as [|n IH]; intros i k; cbn.
  - congruence.
  - destruct (poll_answer _); try congruence.
    destruct (settle w rpc signature (S i) n) as [k' p] eqn:E.
    intros [= <- ->]. f_equal. eauto.
Qed.

(** The loop of withdraw-all in terms of [settle]. *)
Lemma withdraw_wait_eq positionMint n i :
  WithdrawAll.wait_for_confirmation w rpc signature positionMint i n
  = match settle w rpc signature i n with
    | (k, Pending) => (polls rpc signature i k, Normal false)
    | (k, Confirmed) => (polls rpc signature i k, Normal true)
    | (k, Failed err) =>
        (polls rpc signature i k
           ++ [ConsoleLog (WithdrawAll.WithdrawError
                             ("Transaction failed: " +:+ stringified err)
                             positionMint) 0],
         Exited 1)
    | (k, Unreachable msg) => (polls rpc signature i k, Thrown msg)
    end.
Proof.
  revert i; induction n as [|n IH]; intros i; [done|].
  cbn [WithdrawAll.wait_for_confirmation settle].
  unfold sleep, emit, call. cbn [mbind Run_bind app].
  unfold poll_answer.
  destruct (oracle w (getSignatureStatuses rpc signature i)) as [[st|]|msg]; cbn.
  - destruct (status_err st) as [err|]; cbn; [done|].
    change (WithdrawAll.is_confirmed st) with (confirmed_or_finalized st).
    destruct (confirmed_or_finalized st); cbn; [done|].
    rewrite IH. destruct (settle w rpc signature (S i) n) as [k []]; done.
  - rewrite IH. destruct (settle w rpc signature (S i) n) as [k []]; done.
  - done.
Qed.

(** The loop of open-position in terms of [settle]. *)
Lemma open_wait_eq n i :
  OpenPosition.wait_for_confirmation w rpc signature i n
  = match settle w rpc signature i n with
    | (k, Pending) =>
        (polls rpc signature i k,
         Normal {| OpenPosition.confirmed := false; OpenPosition.failed := false;
                   OpenPosition.errorMsg := "" |})
    | (k, Confirmed) =>
        (polls rpc signature i k,
         Normal {| OpenPosition.confirmed := true; OpenPosition.failed := false;
                   OpenPosition.errorMsg := "" |})
    | (k, Failed err) =>
        (polls rpc signature i k,
         Normal {| OpenPosition.confirmed := false; OpenPosition.failed := true;
                   OpenPosition.errorMsg := stringified err |})
    | (k, Unreachable msg) => (polls rpc signature i k, Thrown msg)
    end.
Proof.
  revert i; induction n as [|n IH]; intros i; [done|].
  cbn [OpenPosition.wait_for_confirmation settle].
  unfold sleep, emit, call. cbn [mbind Run_bind app].
  unfold poll_answer.
  destruct (oracle w (getSignatureStatuses rpc signature i)) as [[st|]|msg]; cbn.
  - destruct (status_err st) as [err|]; cbn; [done|].
    change (OpenPosition.is_confirmed st) with (confirmed_or_finalized st).
    destruct (confirmed_or_finalized st); cbn; [done|].
    rewrite IH. destruct (settle w rpc signature (S i) n) as [k []]; done.
  - rewrite IH. destruct (settle w rpc signature (S i) n) as [k []]; done.
  - done.
Qed.

End Polls.

(** ** The first settled poll *)

Lemma sends_app (t1 t2 : list Event) : sends (t1 ++ t2) = sends t1 ++ sends t2.
Proof.
  induction t1 as [|[| | |[]|] t1 IH]; cbn; try done; by rewrite IH.
Qed.

Lemma sends_polls (rpc signature : string) (i k : nat) :
  sends (polls rpc signature i k) = [].
Proof. revert i; induction k as [|k IH]; intros i; cbn; auto. Qed.

(** What the last poll of a loop says is what the node answered to it, and
    every poll before it left the transaction pending. *)
Lemma settle_last (w : World) (rpc signature : string) (i n k : nat) (p : Poll) :
  settle w rpc signature i n = (k, p) ->
  p <> Pending ->
  (1 <= k <= n)%nat
  /\ poll_answer (oracle w (getSignatureStatuses rpc signature (i + k - 1))) = p
  /\ forall j, (j < k - 1)%nat ->
       poll_answer (oracle w (getSignatureStatuses rpc signature (i + j))) = Pending.
Proof.
  revert i k; induction n as [|n IH]; intros i k; cbn [settle].
  - intros [= <- <-] Hp. done.
  - destruct (poll_answer (oracle w (getSignatureStatuses rpc signature i))) eqn:Hi.
    + destruct (settle w rpc signature (S i) n) as [k' p'] eqn:Hrest.
      intros [= <- ->] Hp. destruct (IH _ _ Hrest Hp) as (Hk & Hlast & Hbefore).
      split; [lia|]. split.
      * replace (i + S k' - 1)%nat with (S i + k' - 1)%nat by lia. exact Hlast.
      * intros [|j] Hj; [by rewrite Nat.add_0_r|].
        replace (i + S j)%nat with (S i + j)%nat by lia. apply Hbefore. lia.
    + intros [= <- <-] _. split; [lia|]. split; [|intros j Hj; lia].
      by replace (i + 1 - 1)%nat with i by lia.
    + intros [= <- <-] _. split; [lia|]. split; [|intros j Hj; lia].
      by replace (i + 1 - 1)%nat with i by lia.
    + intros [= <- <-] _. split; [lia|]. split; [|intros j Hj; lia].
      by replace (i + 1 - 1)%nat with i by lia.
Qed.

(** The loop stops at the first poll that does not leave the transaction
    pending. *)
Lemma settle_first (w : World) (rpc signature : string) (n k : nat) (p : Poll) :
  (k < n)%nat ->
  pending_before w rpc signature k ->
  poll_answer (oracle w (getSignatureStatuses rpc signature k)) = p ->
  p <> Pending ->
  settle w rpc signature 0 n = (S k, p).
Proof.
  intros Hk Hbefore Hp Hne.
  assert (forall i m, (i + m = k)%nat -> (m < n - i)%nat ->
            settle w rpc signature i (n - i) = (S m, p)) as Hgen.
  { intros i m. revert i. induction m as [|m IH]; intros i Him Hm.
    - destruct (n - i)%nat as [|n'] eqn:Hn; [lia|]. cbn [settle].
      replace i with k by lia. rewrite Hp. by destruct p.
    - destruct (n - i)%nat as [|n'] eqn:Hn; [lia|]. cbn [settle].
      rewrite (Hbefore i) by lia.
      replace n' with (n - S i)%nat by lia. rewrite (IH (S i)) by lia. done. }
  specialize (Hgen O k). rewrite Nat.sub_0_r in Hgen. apply Hgen; lia.
Qed.


Ltac observe_sends :=
  cbn [sends app]; rewrite ?sends_app, ?sends_polls; cbn [sends app].

Lemma wp_pair {A} (t : list Event) (c : Completion A) Q : Q t c -> wp (t, c) Q.
Proof. exact id. Qed.

(** Symbolic execution up to the leaves, the confirmation loops included. *)
Ltac wp_loop :=
  lazymatch goal with
  | |- wp (WithdrawAll.wait_for_confirmation ?w ?rpc ?sig _ ?i ?n) _ =>
      rewrite withdraw_wait_eq;
      let Hs := fresh "Hsettle" in
      destruct (settle w rpc sig i n) as [? []] eqn:Hs;
      apply wp_pair; cbv beta iota
  | |- wp (OpenPosition.wait_for_confirmation ?w ?rpc ?sig ?i ?n) _ =>
      rewrite open_wait_eq;
      let Hs := fresh "Hsettle" in
      destruct (settle w rpc sig i n) as [? []] eqn:Hs;
      apply wp_pair; cbv beta iota
  end.

Ltac wp_run := repeat first [wp_step | wp_loop]; cbn [app].

(** Decomposes [H : e ∈ t] for a trace [t] made of conses, appends and polls. *)
Ltac in_trace H :=
  repeat first
    [ apply elem_of_nil in H; contradiction
    | apply elem_of_cons in H as [H|H]; [try discriminate H|]
    | apply elem_of_app in H as [H|H]
    | apply elem_of_polls in H as [H|(? & H & ?)]; try discriminate H ].

(** C9: in withdraw-all, when the simulation of the transaction reports an
    error, the run stops there: no [sendTransaction] is ever made, the
    simulation is the last call, and the process exits with code 1 after
    printing the failure result that carries the simulation's error. *)
Theorem withdraw_all_simulation_error_stops_before_send
    (w : World) (rpc txBase64 : string) (sim : Simulation) (err : TransactionError) :
  Called (simulateTransaction rpc txBase64) ∈ trace (WithdrawAll.main w) ->
  oracle w (simulateTransaction rpc txBase64) = Returns sim ->
  sim_err sim = Some err ->
  (forall rpc' tx', Called (sendTransaction rpc' tx') ∉ trace (WithdrawAll.main w))
  /\ last (calls (trace (WithdrawAll.main w))) = Some (simulateTransaction rpc txBase64)
  /\ completion (WithdrawAll.main w) = Exited 1
  /\ exists positionMint,
       argv w !! 2%nat = Some positionMint
       /\ stdout (trace (WithdrawAll.main w))
          = [WithdrawAll.WithdrawError ("Simulation failed: " +:+ stringified err)
               positionMint].
Proof.
  intros Hin Ho He. revert Hin. wp_start (WithdrawAll.main w).
  unfold WithdrawAll.main, WithdrawAll.withdraw, WithdrawAll.loadKeypair.
  wp_run.
  all: intros Hin; in_trace Hin.
  all: match goal with H : Called _ = Called _ |- _ => injection H as <- <- end.
  all: match goal with
       | H : oracle _ (simulateTransaction _ _) = _ |- _ =>
           rewrite Ho in H; try discriminate H; injection H as <-
       end.
  all: try congruence.
  all: match goal with H : sim_err _ = Some _ |- _ =>
         rewrite He in H; injection H as <- end.
  all: repeat match goal with H : truthy _ = Some _ |- _ =>
         apply truthy_Some in H as [H _] end.
  all: split; [intros rpc' tx' Hin'; in_trace Hin'|].
  all: split; [done|].
  all: split; [done|].
  all: eexists; split; [eassumption|done].
Qed.

Ltac argv_known :=
  repeat match goal with
    | H : truthy _ = Some _ |- _ => apply truthy_Some in H as [H _]
    end.

(** Normalises [stdout], [sleeps] and [calls] of a trace at a leaf. *)
Ltac observe :=
  cbn [stdout sleeps calls app];
  rewrite ?stdout_app, ?sleeps_app, ?calls_app, ?stdout_polls, ?sleeps_polls;
  cbn [stdout sleeps calls app].

(** The executor on an emptied position: when the position that withdraw-all
    fetched has zero liquidity, the run makes no further call (nothing is
    built, simulated or sent), prints the failure result "Position has no
    liquidity to withdraw" with the position mint, and exits with code 1. *)
Theorem withdraw_all_zero_liquidity_is_a_failure
    (w : World) (rpc positionAddress : string) (position : PositionData) :
  Called (fetchPosition rpc positionAddress) ∈ trace (WithdrawAll.main w) ->
  oracle w (fetchPosition rpc positionAddress) = Returns position ->
  pos_liquidity position = 0 ->
  reports_failure (WithdrawAll.main w)
  /\ last (calls (trace (WithdrawAll.main w))) = Some (fetchPosition rpc positionAddress)
  /\ exists positionMint,
       argv w !! 2%nat = Some positionMint
       /\ stdout (trace (WithdrawAll.main w))
          = [WithdrawAll.WithdrawError "Position has no liquidity to withdraw" positionMint].
Proof.
  intros Hin Ho Hzero. unfold reports_failure. revert Hin.
  wp_start (WithdrawAll.main w).
  unfold WithdrawAll.main, WithdrawAll.withdraw, WithdrawAll.loadKeypair.
  wp_run.
  all: intros Hin; in_trace Hin.
  all: match goal with H : Called _ = Called _ |- _ => injection H as <- <- end.
  all: match goal with
       | H : oracle _ (fetchPosition _ _) = _ |- _ =>
           rewrite Ho in H; try discriminate H; injection H as <-
       end.
  all: try contradiction.
  all: argv_known.
  all: split; [split; [done|]; eexists; split; done|].
  all: split; [done|].
  all: eexists; split; [eassumption|done].
Qed.

(** Every run of withdraw-all prints exactly one value: the result when
    [main] returns, a [WithdrawError] carrying the position mint given on the
    command line when the process exits, and no exception escapes. *)
Lemma withdraw_all_result (w : World) :
  match completion (WithdrawAll.main w) with
  | Normal _ =>
      exists positionMint close signature,
        argv w !! 2%nat = Some positionMint
        /\ stdout (trace (WithdrawAll.main w))
           = [WithdrawAll.WithdrawResult positionMint close signature]
  | Exited code =>
      code = 1
      /\ exists error,
           stdout (trace (WithdrawAll.main w))
           = [WithdrawAll.WithdrawError error (default "" (truthy (argv w !! 2%nat)))]
  | Thrown _ => False
  end.
Proof.
  wp_start (WithdrawAll.main w).
  unfold WithdrawAll.main, WithdrawAll.withdraw, WithdrawAll.loadKeypair.
  wp_step; [wp_step|]; wp_run.
  all: observe.
  all: try (split; [done|]; eexists; done).
  argv_known. all: argv_known; eauto.
Qed.

(** Every run of open-position that returns or exits prints exactly one
    value: the result when [main] returns, an [OpenPositionError] when the
    process exits. *)
Lemma open_position_result (w : World) :
  match completion (OpenPosition.main w) with
  | Normal _ =>
      exists opened lowerPrice upperPrice signature,
        stdout (trace (OpenPosition.main w))
        = [OpenPosition.OpenPositionResult opened lowerPrice upperPrice signature]
  | Exited code =>
      code = 1
      /\ exists error,
           stdout (trace (OpenPosition.main w)) = [OpenPosition.OpenPositionError error]
  | Thrown _ => True
  end.
Proof.
  wp_start (OpenPosition.main w).
  unfold OpenPosition.main, OpenPosition.open, OpenPosition.loadKeypairBytes.
  wp_run.
  all: observe.
  all: try done.
  all: try (split; [done|]; eexists; done).
  all: cbn in *; try discriminate.
  all: eauto.
Qed.

Lemma wp_promise_all {A B} (a : Run A) (b : Run B) Q :
  wp a (fun ta ca =>
    wp b (fun tb cb =>
      Q (ta ++ tb)
        match ca, cb with
        | Normal x, Normal y => Normal (x, y)
        | Thrown msg, _ => Thrown msg
        | Exited code, _ => Exited code
        | Normal _, Thrown msg => Thrown msg
        | Normal _, Exited code => Exited code
        end)) ->
  wp (FetchPosition.promise_all a b) Q.
Proof. destruct a as [ta ca], b as [tb cb]. exact id. Qed.

(** What fetch-pool prints when it succeeds, and nothing but an error
    object otherwise. *)
Lemma fetch_pool_result (w : World) :
  match completion (FetchPool.main w) with
  | Normal _ =>
      exists poolAddress rpc whirlpoolAddress pool price,
        argv w !! 2%nat = Some poolAddress
        /\ oracle w (fetchWhirlpool rpc whirlpoolAddress) = Returns pool
        /\ oracle w (sqrtPriceToPrice (sqrtPrice pool) (Some 9) (Some 6)) = Returns price
        /\ stdout (trace (FetchPool.main w)) = [FetchPool.PoolInfo w poolAddress pool price]
  | Exited code =>
      code = 1
      /\ exists error,
           stdout (trace (FetchPool.main w)) = [JObject [("error", JString error)]]
  | Thrown _ => False
  end.
Proof.
  wp_start (FetchPool.main w).
  unfold FetchPool.main, FetchPool.fetch.
  wp_run.
  all: observe.
  all: try (split; [done|]; eexists; done).
  argv_known. eauto 10.
Qed.

(** What fetch-position prints when it succeeds; a failed run prints
    nothing on standard output. *)
Lemma fetch_position_result (w : World) :
  match completion (FetchPosition.main w) with
  | Normal _ =>
      exists positionMint rpc positionAddress position pool accountA accountB
             currentPrice lowerPrice upperPrice,
        oracle w (fetchPosition rpc positionAddress) = Returns position
        /\ oracle w (fetchWhirlpool rpc (pos_whirlpool position)) = Returns pool
        /\ oracle w (getAccountInfo rpc (tokenMintA pool)) = Returns accountA
        /\ oracle w (getAccountInfo rpc (tokenMintB pool)) = Returns accountB
        /\ oracle w (sqrtPriceToPrice (sqrtPrice pool)
                       (mint_decimals accountA) (mint_decimals accountB))
           = Returns currentPrice
        /\ stdout (trace (FetchPosition.main w))
           = [FetchPosition.PositionSnapshot w positionMint positionAddress position pool
                currentPrice lowerPrice upperPrice
                ((tickLowerIndex position <=? tickCurrentIndex pool)
                 && (tickCurrentIndex pool <? tickUpperIndex position))]
  | _ => stdout (trace (FetchPosition.main w)) = []
  end.
Proof.
  wp_start (FetchPosition.main w).
  unfold FetchPosition.main, FetchPosition.snapshot, FetchPosition.fetchTokenDecimals.
  repeat first [wp_step | apply wp_promise_all; cbv beta iota].
  all: cbn [app fst snd]; observe.
  all: try done.
  all: do 10 eexists.
  all: repeat split; try eassumption.
  all: done.
Qed.

(** ** The claims about the executor scripts *)

Lemma never_settles_example (argv : list string) (liquidity : Z)
    (simulation_error : option TransactionError) :
  never_settles (example_world argv liquidity simulation_error (fun _ => None)).
Proof. intros rpc signature attempt. reflexivity. Qed.

(** The simulation of [simulation_error_world] fails, and the run stops
    there. *)
Lemma withdraw_all_simulation_error_example :
  (forall rpc' tx',
     Called (sendTransaction rpc' tx') ∉ trace (WithdrawAll.main simulation_error_world))
  /\ last (calls (trace (WithdrawAll.main simulation_error_world)))
     = Some (simulateTransaction "https://api.mainnet-beta.solana.com" "TxBase64")
  /\ completion (WithdrawAll.main simulation_error_world) = Exited 1
  /\ exists positionMint,
       argv simulation_error_world !! 2%nat = Some positionMint
       /\ stdout (trace (WithdrawAll.main simulation_error_world))
          = [WithdrawAll.WithdrawError
               ("Simulation failed: " +:+ stringified account_in_use) positionMint].
Proof.
  apply (withdraw_all_simulation_error_stops_before_send simulation_error_world
           "https://api.mainnet-beta.solana.com" "TxBase64"
           {| sim_err := Some account_in_use |} account_in_use).
  - apply (list_elem_of_lookup_2 _ 17). vm_compute. reflexivity.
  - reflexivity.
  - reflexivity.
Defined.

(** On a position whose liquidity is zero, the withdraw-all script itself
    does not succeed; it exits with code 1 after printing a failure. *)
Lemma withdraw_all_zero_liquidity_does_not_succeed :
  (exists rpc positionAddress position,
     Called (fetchPosition rpc positionAddress) ∈ trace (WithdrawAll.main zero_liquidity_world)
     /\ oracle zero_liquidity_world (fetchPosition rpc positionAddress) = Returns position
     /\ pos_liquidity position = 0)
  /\ ~ reports_success (WithdrawAll.main zero_liquidity_world)
  /\ exit_code (WithdrawAll.main zero_liquidity_world) = 1
  /\ stdout (trace (WithdrawAll.main zero_liquidity_world))
     = [JObject [("success", JBool false);
                 ("error", JString "Position has no liquidity to withdraw");
                 ("positionMint", JString "PositionMint")]].
Proof.
  split; [|split; [|split]].
  - eexists _, _, _. split; [|split].
    + apply (list_elem_of_lookup_2 _ 7). vm_compute. reflexivity.
    + reflexivity.
    + reflexivity.
  - intros [Hnormal _]. vm_compute in Hnormal. discriminate Hnormal.
  - vm_compute. reflexivity.
  - vm_compute. reflexivity.
Qed.

(** [zero_liquidity_world] is such a run. *)
Lemma withdraw_all_zero_liquidity_example :
  reports_failure (WithdrawAll.main zero_liquidity_world)
  /\ last (calls (trace (WithdrawAll.main zero_liquidity_world)))
     = Some (fetchPosition "https://api.mainnet-beta.solana.com" "PositionOfPositionMint")
  /\ exists positionMint,
       argv zero_liquidity_world !! 2%nat = Some positionMint
       /\ stdout (trace (WithdrawAll.main zero_liquidity_world))
          = [WithdrawAll.WithdrawError "Position has no liquidity to withdraw" positionMint].
Proof.
  apply (withdraw_all_zero_liquidity_is_a_failure zero_liquidity_world
           "https://api.mainnet-beta.solana.com" "PositionOfPositionMint"
           {| pos_whirlpool := "Pool"; tickLowerIndex := -100; tickUpperIndex := 100;
              pos_liquidity := 0; feeOwedA := 3; feeOwedB := 4 |}).
  - apply (list_elem_of_lookup_2 _ 7). vm_compute. reflexivity.
  - reflexivity.
  - reflexivity.
Defined.

(** Both timeout worlds reach their confirmation loop. *)
Lemma polling_started_withdraw_timeout :
  polling_started (WithdrawAll.main withdraw_timeout_world).
Proof.
  exists "https://api.mainnet-beta.solana.com", "Signature".
  apply (list_elem_of_lookup_2 _ 21). vm_compute. reflexivity.
Defined.

Lemma polling_started_open_timeout :
  polling_started (OpenPosition.main open_timeout_world).
Proof.
  exists "https://api.mainnet-beta.solana.com", "Signature".
  apply (list_elem_of_lookup_2 _ 18). vm_compute. reflexivity.
Defined.

(** C2, as stated, fails for open-position: when all 15 polls pass without
    the transaction confirming, the script prints a result with
    [success: true] and ends normally, not with a failure. *)
Lemma open_position_timeout_reports_success :
  never_settles open_timeout_world
  /\ polling_started (OpenPosition.main open_timeout_world)
  /\ sleeps (trace (OpenPosition.main open_timeout_world)) = replicate 15 2000
  /\ reports_success (OpenPosition.main open_timeout_world)
  /\ ~ reports_failure (OpenPosition.main open_timeout_world)
  /\ exit_code (OpenPosition.main open_timeout_world) = 0.
Proof.
  split; [apply never_settles_example|].
  split; [apply polling_started_open_timeout|].
  split; [vm_compute; reflexivity|].
  split; [|split].
  - split; [vm_compute; reflexivity|].
    eexists. split; vm_compute; reflexivity.
  - intros [Hexit _]. vm_compute in Hexit. discriminate Hexit.
  - vm_compute. reflexivity.
Qed.

(** ** The polls a run makes *)

Lemma waiting_app (t1 t2 : list Event) : waiting (t1 ++ t2) = waiting t1 ++ waiting t2.
Proof.
  induction t1 as [|[| | |[]|] t1 IH]; cbn; try done; by rewrite IH.
Qed.

Lemma waiting_polls (rpc signature : string) (i k : nat) :
  waiting (polls rpc signature i k) = polls rpc signature i k.
Proof. revert i; induction k as [|k IH]; intros i; cbn; [done|]. by rewrite IH. Qed.

(** Normalises [waiting] of a trace at a leaf. *)
Ltac observe_waiting :=
  cbn [waiting app]; rewrite ?waiting_app, ?waiting_polls; cbn [waiting app];
  rewrite ?app_nil_r.

(** The polls of withdraw-all: at most 30, attempts 0, 1, ... of one
    signature, each after a delay of 2000 ms, and no other delay. *)
Lemma withdraw_all_waiting (w : World) :
  exists rpc signature k,
    (k <= 30)%nat /\ waiting (trace (WithdrawAll.main w)) = polls rpc signature 0 k.
Proof.
  wp_start (WithdrawAll.main w).
  unfold WithdrawAll.main, WithdrawAll.withdraw, WithdrawAll.loadKeypair.
  wp_run.
  all: observe_waiting.
  all: try (exists "", "", 0%nat; split; [lia|done]).
  all: match goal with
       | H : settle ?w ?rpc ?sig ?i ?n = (?k, _) |- _ =>
           exists rpc, sig, k; split;
           [pose proof (settle_bound w rpc sig i n) as Hb; rewrite H in Hb; exact Hb
           |reflexivity]
       end.
Qed.

(** The polls of open-position: at most 15, in the same way. *)
Lemma open_position_waiting (w : World) :
  exists rpc signature k,
    (k <= 15)%nat /\ waiting (trace (OpenPosition.main w)) = polls rpc signature 0 k.
Proof.
  wp_start (OpenPosition.main w).
  unfold OpenPosition.main, OpenPosition.open, OpenPosition.loadKeypairBytes.
  wp_run.
  all: observe_waiting.
  all: try (exists "", "", 0%nat; split; [lia|done]).
  all: match goal with
       | H : settle ?w ?rpc ?sig ?i ?n = (?k, _) |- _ =>
           exists rpc, sig, k; split;
           [pose proof (settle_bound w rpc sig i n) as Hb; rewrite H in Hb; exact Hb
           |reflexivity]
       end.
Qed.

Lemma polls_elem (rpc signature : string) (i k j : nat) :
  (i <= j < i + k)%nat ->
  Called (getSignatureStatuses rpc signature j) ∈ polls rpc signature i k.
Proof.
  revert i; induction k as [|k IH]; intros i Hj; [lia|].
  cbn [polls]. apply elem_of_cons. right. apply elem_of_cons.
  destruct (decide (j = i)) as [->|Hne]; [by left|].
  right. apply IH. lia.
Qed.

(** A loop whose polls all stay pending has used every attempt. *)
Lemma settle_stays_pending (w : World) (rpc signature : string) (n k : nat) (p : Poll) :
  settle w rpc signature 0 n = (k, p) ->
  (forall attempt, (attempt < k)%nat ->
     poll_answer (oracle w (getSignatureStatuses rpc signature attempt)) = Pending) ->
  k = n /\ p = Pending.
Proof.
  intros Hsettle Hstay.
  assert (p = Pending \/ p <> Pending) as [->|Hne]
    by (destruct p; [by left|by right..]).
  { split; [|done]. by eapply settle_pending. }
  destruct (settle_last _ _ _ _ _ _ _ Hsettle Hne) as (Hk & Hlast & _).
  exfalso. apply Hne. rewrite <- Hlast. apply Hstay. lia.
Qed.

(** Turns "every poll made stays pending" into the end of the loop. *)
Ltac polls_pending Hstay :=
  match goal with
  | H : settle ?w ?rpc ?sig 0 ?n = (?k, ?p) |- _ =>
      let Hp := fresh "Hp" in
      assert (forall attempt, (attempt < k)%nat ->
                poll_answer (oracle w (getSignatureStatuses rpc sig attempt)) = Pending)
        as Hp
        by (intros attempt Hlt; apply Hstay;
            repeat (apply elem_of_cons; right);
            apply elem_of_app; left; apply polls_elem; lia);
      destruct (settle_stays_pending _ _ _ _ _ _ H Hp) as [Hk Hpending];
      try discriminate Hpending; subst k
  end.

(** When every poll it makes leaves the transaction pending, withdraw-all
    polls 30 times and reports the timeout as a failure. *)
Lemma withdraw_all_times_out (w : World) :
  polling_started (WithdrawAll.main w) ->
  polls_stay_pending w (WithdrawAll.main w) ->
  (exists rpc signature,
     waiting (trace (WithdrawAll.main w)) = polls rpc signature 0 30)
  /\ completion (WithdrawAll.main w) = Exited 1
  /\ exists positionMint,
       argv w !! 2%nat = Some positionMint
       /\ stdout (trace (WithdrawAll.main w))
          = [WithdrawAll.WithdrawError "Transaction confirmation timeout" positionMint].
Proof.
  unfold polls_stay_pending.
  intros (rpc & sig & Hin) Hstay. revert Hin Hstay.
  wp_start (WithdrawAll.main w).
  unfold WithdrawAll.main, WithdrawAll.withdraw, WithdrawAll.loadKeypair.
  wp_run.
  all: intros Hin Hstay.
  all: try (in_trace Hin; fail).
  all: polls_pending Hstay.
  all: argv_known.
  all: observe; observe_waiting.
  all: split; [eexists _, _; reflexivity|].
  all: split; [done|].
  all: eexists; split; [eassumption|done].
Qed.

(** When every poll it makes leaves the transaction pending, open-position
    polls 15 times, warns on standard error and prints a success result. *)
Lemma open_position_times_out (w : World) :
  polling_started (OpenPosition.main w) ->
  polls_stay_pending w (OpenPosition.main w) ->
  (exists rpc signature,
     waiting (trace (OpenPosition.main w)) = polls rpc signature 0 15)
  /\ reports_success (OpenPosition.main w)
  /\ ConsoleError "Confirmation timeout - check Solscan for status"
       ∈ trace (OpenPosition.main w).
Proof.
  unfold polls_stay_pending, reports_success.
  intros (rpc & sig & Hin) Hstay. revert Hin Hstay.
  wp_start (OpenPosition.main w).
  unfold OpenPosition.main, OpenPosition.open, OpenPosition.loadKeypairBytes.
  wp_run.
  all: intros Hin Hstay.
  all: try (in_trace Hin; fail).
  all: polls_pending Hstay.
  all: cbn [OpenPosition.failed OpenPosition.confirmed OpenPosition.errorMsg] in *;
       try discriminate.
  all: observe; observe_waiting.
  all: split; [eexists _, _; reflexivity|].
  all: split; [split; [reflexivity|eexists; split; reflexivity]|].
  all: match goal with
       | |- context [polls ?r ?s ?i ?n] => generalize (polls r s i n); intros made
       end.
  all: repeat (apply elem_of_cons; right).
  all: apply elem_of_app; right; apply elem_of_cons; by left.
Qed.

(** C2, as the code has it: both confirmation loops wait 2000 ms before
    each poll and poll at most 30 times (withdraw-all) and 15 times
    (open-position): the delays and polls of a run are the attempts 0, 1, ...
    of one signature, each after a delay of 2000 ms.  When every poll made
    leaves the transaction pending, withdraw-all uses its 30 attempts and
    reports the failure "Transaction confirmation timeout"; open-position
    uses its 15 attempts, writes a warning to standard error and prints a
    success result. *)
Theorem confirmation_polling_bounds_and_timeouts (withdrawal opening : World) :
  polling_started (WithdrawAll.main withdrawal) ->
  polls_stay_pending withdrawal (WithdrawAll.main withdrawal) ->
  polling_started (OpenPosition.main opening) ->
  polls_stay_pending opening (OpenPosition.main opening) ->
  (forall w, exists rpc signature k,
      (k <= 30)%nat /\ waiting (trace (WithdrawAll.main w)) = polls rpc signature 0 k)
  /\ (forall w, exists rpc signature k,
        (k <= 15)%nat /\ waiting (trace (OpenPosition.main w)) = polls rpc signature 0 k)
  /\ ((exists rpc signature,
         waiting (trace (WithdrawAll.main withdrawal)) = polls rpc signature 0 30)
      /\ reports_failure (WithdrawAll.main withdrawal)
      /\ exists positionMint,
           argv withdrawal !! 2%nat = Some positionMint
           /\ stdout (trace (WithdrawAll.main withdrawal))
              = [WithdrawAll.WithdrawError "Transaction confirmation timeout" positionMint])
  /\ ((exists rpc signature,
         waiting (trace (OpenPosition.main opening)) = polls rpc signature 0 15)
      /\ reports_success (OpenPosition.main opening)
      /\ ConsoleError "Confirmation timeout - check Solscan for status"
           ∈ trace (OpenPosition.main opening)).
Proof.
  intros Hws Hw Hos Ho.
  split; [exact withdraw_all_waiting|].
  split; [exact open_position_waiting|].
  split.
  - destruct (withdraw_all_times_out withdrawal Hws Hw) as (Hpolls & Hexit & pm & Hargv & Hout).
    split; [exact Hpolls|]. split; [|by eauto].
    split; [exact Hexit|]. rewrite Hout. eexists. split; reflexivity.
  - exact (open_position_times_out opening Hos Ho).
Qed.

(** The two timeout worlds are such runs. *)
Lemma confirmation_polling_example :
  (forall w, exists rpc signature k,
      (k <= 30)%nat /\ waiting (trace (WithdrawAll.main w)) = polls rpc signature 0 k)
  /\ (forall w, exists rpc signature k,
        (k <= 15)%nat /\ waiting (trace (OpenPosition.main w)) = polls rpc signature 0 k)
  /\ ((exists rpc signature,
         waiting (trace (WithdrawAll.main withdraw_timeout_world)) = polls rpc signature 0 30)
      /\ reports_failure (WithdrawAll.main withdraw_timeout_world)
      /\ exists positionMint,
           argv withdraw_timeout_world !! 2%nat = Some positionMint
           /\ stdout (trace (WithdrawAll.main withdraw_timeout_world))
              = [WithdrawAll.WithdrawError "Transaction confirmation timeout" positionMint])
  /\ ((exists rpc signature,
         waiting (trace (OpenPosition.main open_timeout_world)) = polls rpc signature 0 15)
      /\ reports_success (OpenPosition.main open_timeout_world)
      /\ ConsoleError "Confirmation timeout - check Solscan for status"
           ∈ trace (OpenPosition.main open_timeout_world)).
Proof.
  apply (confirmation_polling_bounds_and_timeouts withdraw_timeout_world open_timeout_world).
  - apply polling_started_withdraw_timeout.
  - intros rpc signature attempt _. reflexivity.
  - apply polling_started_open_timeout.
  - intros rpc signature attempt _. reflexivity.
Defined.

(** C7, as stated, fails: when the transaction of open-position lands with
    an error, the failure result names neither a position mint (though the
    new mint is known and was logged) nor a step. *)
Lemma open_position_failure_names_no_mint_nor_step :
  completion (OpenPosition.main open_failed_world) = Exited 1
  /\ ConsoleError "Position mint: NewPositionMint" ∈ trace (OpenPosition.main open_failed_world)
  /\ exists value,
       stdout (trace (OpenPosition.main open_failed_world)) = [value]
       /\ field "success" value = Some (JBool false)
       /\ field "positionMint" value = None
       /\ field "step" value = None.
Proof.
  split; [vm_compute; reflexivity|].
  split; [apply (list_elem_of_lookup_2 _ 12); vm_compute; reflexivity|].
  eexists. repeat split; vm_compute; reflexivity.
Qed.

(** C7, as the code has it: every run of withdraw-all prints exactly one
    value, a result with [success: true] when it ends normally and, when it
    exits with code 1, the object [{success: false, error, positionMint}]
    whose [positionMint] is the command-line argument (empty when missing);
    every run of open-position that ends normally or exits prints exactly
    one value, a result with [success: true] or the object
    [{success: false, error}].  No failure object has a step field, and the
    one of open-position has no position mint. *)
Theorem executor_results_are_structured (w : World) :
  match completion (WithdrawAll.main w) with
  | Normal _ =>
      exists value,
        stdout (trace (WithdrawAll.main w)) = [value]
        /\ field "success" value = Some (JBool true)
  | Exited code =>
      code = 1
      /\ exists error,
           stdout (trace (WithdrawAll.main w))
           = [JObject [("success", JBool false);
                       ("error", JString error);
                       ("positionMint",
                         JString (default "" (truthy (argv w !! 2%nat))))]]
  | Thrown _ => False
  end
  /\ match completion (OpenPosition.main w) with
     | Normal _ =>
         exists value,
           stdout (trace (OpenPosition.main w)) = [value]
           /\ field "success" value = Some (JBool true)
     | Exited code =>
         code = 1
         /\ exists error,
              stdout (trace (OpenPosition.main w))
              = [JObject [("success", JBool false); ("error", JString error)]]
     | Thrown _ => True
     end.
Proof.
  split.
  - pose proof (withdraw_all_result w) as H.
    destruct (completion (WithdrawAll.main w)); [|done|exact H].
    destruct H as (pm & close & sig & _ & ->). eexists. split; reflexivity.
  - pose proof (open_position_result w) as H.
    destruct (completion (OpenPosition.main w)); [|done|exact H].
    destruct H as (opened & lo & hi & sig & ->). eexists. split; reflexivity.
Qed.

(** C3: the snapshot that fetch-position prints holds the pool's current
    tick and the position's lower and upper ticks, and its [inRange] is true
    exactly when lowerTick <= currentTick < upperTick. *)
Theorem fetch_position_inRange (w : World) (snapshot : Json) :
  snapshot ∈ stdout (trace (FetchPosition.main w)) ->
  exists rpc positionAddress position pool inRange,
    oracle w (fetchPosition rpc positionAddress) = Returns position
    /\ oracle w (fetchWhirlpool rpc (pos_whirlpool position)) = Returns pool
    /\ field "currentTick" snapshot = Some (JInt (tickCurrentIndex pool))
    /\ field "lowerTick" snapshot = Some (JInt (tickLowerIndex position))
    /\ field "upperTick" snapshot = Some (JInt (tickUpperIndex position))
    /\ field "inRange" snapshot = Some (JBool inRange)
    /\ (inRange = true
        <-> tickLowerIndex position <= tickCurrentIndex pool < tickUpperIndex position).
Proof.
  intros Hin. pose proof (fetch_position_result w) as H.
  destruct (completion (FetchPosition.main w));
    [|rewrite H in Hin; by apply elem_of_nil in Hin..].
  destruct H as (pm & rpc & addr & position & pool & accA & accB & cur & lo & hi
                 & Hpos & Hpool & _ & _ & _ & Hout).
  rewrite Hout in Hin. apply list_elem_of_singleton in Hin as ->.
  exists rpc, addr, position, pool. eexists.
  do 2 (split; [eassumption|]).
  do 4 (split; [reflexivity|]).
  rewrite andb_true_iff, Z.leb_le, Z.ltb_lt. reflexivity.
Qed.

(** The snapshot of [fetch_world]: ticks -100 <= 5 < 100, in range. *)
Lemma fetch_position_inRange_example :
  fetch_world_snapshot ∈ stdout (trace (FetchPosition.main fetch_world))
  /\ exists rpc positionAddress position pool inRange,
       oracle fetch_world (fetchPosition rpc positionAddress) = Returns position
       /\ oracle fetch_world (fetchWhirlpool rpc (pos_whirlpool position)) = Returns pool
       /\ field "currentTick" fetch_world_snapshot = Some (JInt (tickCurrentIndex pool))
       /\ field "lowerTick" fetch_world_snapshot = Some (JInt (tickLowerIndex position))
       /\ field "upperTick" fetch_world_snapshot = Some (JInt (tickUpperIndex position))
       /\ field "inRange" fetch_world_snapshot = Some (JBool inRange)
       /\ (inRange = true
           <-> tickLowerIndex position <= tickCurrentIndex pool < tickUpperIndex position).
Proof.
  assert (fetch_world_snapshot ∈ stdout (trace (FetchPosition.main fetch_world))) as Hin.
  { apply (list_elem_of_lookup_2 _ 0). vm_compute. reflexivity. }
  split; [exact Hin|].
  exact (fetch_position_inRange fetch_world fetch_world_snapshot Hin).
Defined.

(** C8: fetch-pool prices the pool with [sqrtPriceToPrice(sqrtPrice, 9, 6)]
    whatever the pool's mints are, while fetch-position prices it with the
    decimals read from the two mint accounts (byte 44 of the account data,
    and 6 for a missing account). *)
Theorem fetch_pool_assumes_9_and_6_decimals (pool_run position_run : World) :
  completion (FetchPool.main pool_run) = Normal tt ->
  completion (FetchPosition.main position_run) = Normal tt ->
  (exists rpc whirlpoolAddress pool price value,
     oracle pool_run (fetchWhirlpool rpc whirlpoolAddress) = Returns pool
     /\ oracle pool_run (sqrtPriceToPrice (sqrtPrice pool) (Some 9) (Some 6)) = Returns price
     /\ stdout (trace (FetchPool.main pool_run)) = [value]
     /\ field "mintA" value = Some (JString (tokenMintA pool))
     /\ field "mintB" value = Some (JString (tokenMintB pool))
     /\ field "currentPrice" value = Some (JString (number_toString pool_run price)))
  /\ (exists rpc positionAddress position pool accountA accountB price value,
        oracle position_run (fetchPosition rpc positionAddress) = Returns position
        /\ oracle position_run (fetchWhirlpool rpc (pos_whirlpool position)) = Returns pool
        /\ oracle position_run (getAccountInfo rpc (tokenMintA pool)) = Returns accountA
        /\ oracle position_run (getAccountInfo rpc (tokenMintB pool)) = Returns accountB
        /\ oracle position_run
             (sqrtPriceToPrice (sqrtPrice pool)
                (mint_decimals accountA) (mint_decimals accountB))
           = Returns price
        /\ stdout (trace (FetchPosition.main position_run)) = [value]
        /\ field "currentPrice" value
           = Some (JString (number_toString position_run price)))
  /\ mint_decimals None = Some 6
  /\ (forall data, mint_decimals (Some data) = data !! 44%nat).
Proof.
  intros Hpool Hposition. split; [|split; [|done]].
  - pose proof (fetch_pool_result pool_run) as H. rewrite Hpool in H.
    destruct H as (poolAddress & rpc & addr & pool & price & _ & Hfetch & Hprice & Hout).
    exists rpc, addr, pool, price. eexists.
    do 3 (split; [eassumption|]). repeat split; reflexivity.
  - pose proof (fetch_position_result position_run) as H. rewrite Hposition in H.
    destruct H as (pm & rpc & addr & position & pool & accA & accB & cur & lo & hi
                   & Hpos & Hpool' & HA & HB & Hprice & Hout).
    exists rpc, addr, position, pool, accA, accB, cur. eexists.
    do 6 (split; [eassumption|]). reflexivity.
Qed.

(** Both scripts succeed in [fetch_world], where mint A has 8 decimals and
    the account of mint B is missing. *)
Lemma fetch_decimals_example :
  (exists rpc whirlpoolAddress pool price value,
     oracle fetch_world (fetchWhirlpool rpc whirlpoolAddress) = Returns pool
     /\ oracle fetch_world (sqrtPriceToPrice (sqrtPrice pool) (Some 9) (Some 6)) = Returns price
     /\ stdout (trace (FetchPool.main fetch_world)) = [value]
     /\ field "mintA" value = Some (JString (tokenMintA pool))
     /\ field "mintB" value = Some (JString (tokenMintB pool))
     /\ field "currentPrice" value = Some (JString (number_toString fetch_world price)))
  /\ (exists rpc positionAddress position pool accountA accountB price value,
        oracle fetch_world (fetchPosition rpc positionAddress) = Returns position
        /\ oracle fetch_world (fetchWhirlpool rpc (pos_whirlpool position)) = Returns pool
        /\ oracle fetch_world (getAccountInfo rpc (tokenMintA pool)) = Returns accountA
        /\ oracle fetch_world (getAccountInfo rpc (tokenMintB pool)) = Returns accountB
        /\ oracle fetch_world
             (sqrtPriceToPrice (sqrtPrice pool)
                (mint_decimals accountA) (mint_decimals accountB))
           = Returns price
        /\ stdout (trace (FetchPosition.main fetch_world)) = [value]
        /\ field "currentPrice" value
           = Some (JString (number_toString fetch_world price)))
  /\ mint_decimals None = Some 6
  /\ (forall data, mint_decimals (Some data) = data !! 44%nat).
Proof.
  apply (fetch_pool_assumes_9_and_6_decimals fetch_world fetch_world).
  - vm_compute. reflexivity.
  - vm_compute. reflexivity.
Defined.

(** ** The two base58 decoders *)

Lemma push_carry_copies (bytes : list Z) (carry : Z) :
  WithdrawAll.push_carry bytes carry = OpenPosition.push_carry bytes carry.
Proof.
  funelim (WithdrawAll.push_carry bytes carry);
    rewrite OpenPosition.push_carry_equation_1, Heq; cbn; [assumption|reflexivity].
Qed.

Lemma decode_chars_copies (cs : list string) (bytes : list Z) :
  WithdrawAll.decode_chars cs bytes = OpenPosition.decode_chars cs bytes.
Proof.
  revert bytes; induction cs as [|char cs IH]; intros bytes;
    cbn [WithdrawAll.decode_chars OpenPosition.decode_chars]; [reflexivity|].
  change (OpenPosition.ALPHABET_MAP) with (WithdrawAll.ALPHABET_MAP).
  destruct (WithdrawAll.ALPHABET_MAP !! char) as [value|]; [|done].
  change (OpenPosition.mul_add bytes value) with (WithdrawAll.mul_add bytes value).
  destruct (WithdrawAll.mul_add bytes value) as [bytes' carry].
  by rewrite push_carry_copies, IH.
Qed.

Lemma chars_length (s : string) : length (chars s) = String.length s.
Proof. induction s; cbn; auto. Qed.

(** The keys of the map filled by the alphabet loop. *)
Lemma fill_map_lookup_None (cs : list string) (i : Z) (m : gmap string Z) (c : string) :
  WithdrawAll.fill_map cs i m !! c = None <-> (c ∉ cs) /\ m !! c = None.
Proof.
  revert i m; induction cs as [|c' cs IH]; intros i m; cbn.
  - rewrite elem_of_nil. tauto.
  - rewrite IH, not_elem_of_cons, lookup_insert_None. naive_solver.
Qed.

Lemma ALPHABET_MAP_None (c : string) :
  WithdrawAll.ALPHABET_MAP !! c = None <-> c ∉ chars WithdrawAll.ALPHABET.
Proof.
  unfold WithdrawAll.ALPHABET_MAP. rewrite fill_map_lookup_None, lookup_empty. tauto.
Qed.

(** The decoding loop throws exactly when it meets a character outside the
    alphabet. *)
Lemma decode_chars_throws (cs : list string) (bytes : list Z) :
  (exists msg, WithdrawAll.decode_chars cs bytes = Throws msg)
  <-> exists c, c ∈ cs /\ c ∉ chars WithdrawAll.ALPHABET.
Proof.
  revert bytes; induction cs as [|char cs IH]; intros bytes;
    cbn [WithdrawAll.decode_chars].
  - split; [intros [? [=]]|intros (c & Hc & _); by apply elem_of_nil in Hc].
  - destruct (WithdrawAll.ALPHABET_MAP !! char) as [value|] eqn:Hchar.
    + destruct (WithdrawAll.mul_add bytes value) as [bytes' carry].
      rewrite IH. split; intros (c & Hc & Hout).
      * exists c. split; [by right|done].
      * apply elem_of_cons in Hc as [->|Hc]; [|by eauto].
        apply ALPHABET_MAP_None in Hout. congruence.
    + apply ALPHABET_MAP_None in Hchar. split; [|by eauto].
      intros _. exists char. split; [by left|done].
Qed.

(** C10: the decoder of withdraw-all and the decoder of open-position give
    the same result on every string, the same bytes or the same exception;
    they throw exactly on the strings that hold a character outside the
    base58 alphabet. *)
Theorem decodeBase58_copies_agree (encoded : string) :
  WithdrawAll.decodeBase58 encoded = OpenPosition.decodeBase58 encoded
  /\ ((exists msg, WithdrawAll.decodeBase58 encoded = Throws msg)
      <-> exists c, c ∈ chars encoded /\ c ∉ chars WithdrawAll.ALPHABET).
Proof.
  split.
  - unfold WithdrawAll.decodeBase58, OpenPosition.decodeBase58.
    by rewrite decode_chars_copies.
  - unfold WithdrawAll.decodeBase58.
    destruct (decide (String.length encoded = 0%nat)) as [Hlen|Hlen].
    + rewrite <- chars_length in Hlen. apply nil_length_inv in Hlen. rewrite Hlen.
      split; [intros [? [=]]|intros (c & Hc & _); by apply elem_of_nil in Hc].
    + rewrite <- decode_chars_throws with (bytes := [0]).
      destruct (WithdrawAll.decode_chars (chars encoded) [0]); split;
        intros [msg' [=]]; eauto.
Qed.

(** ** What the decoder computes *)

Lemma ToInt32_small (x : Z) : 0 <= x < 2 ^ 31 -> ToInt32 x = x.
Proof.
  intros Hx. unfold ToInt32. cbv zeta.
  rewrite Z.mod_small by lia.
  destruct (Z.ltb_spec x (2 ^ 31)); lia.
Qed.

Lemma js_and_255 (x : Z) : 0 <= x < 2 ^ 31 -> js_and x 255 = x mod 256.
Proof.
  intros Hx. unfold js_and. rewrite (ToInt32_small x Hx), (ToInt32_small 255) by lia.
  change 255 with (Z.ones 8). rewrite Z.land_ones by lia. reflexivity.
Qed.

Lemma js_sar_8 (x : Z) : 0 <= x < 2 ^ 31 -> js_sar x 8 = x / 256.
Proof.
  intros Hx. unfold js_sar. rewrite (ToInt32_small x Hx).
  change (8 mod 32) with 8. rewrite Z.shiftr_div_pow2 by lia. reflexivity.
Qed.

Lemma le_value_app (bytes : list Z) (b : Z) :
  le_value (bytes ++ [b]) = le_value bytes + 256 ^ Z.of_nat (length bytes) * b.
Proof.
  induction bytes as [|b' bytes IH]; cbn [le_value app length].
  - cbn. lia.
  - rewrite IH, Nat2Z.inj_succ, Z.pow_succ_r by lia. lia.
Qed.

Lemma mul_add_spec (bytes : list Z) (carry : Z) :
  Forall is_byte bytes -> 0 <= carry <= 57 ->
  let '(bytes', carry') := WithdrawAll.mul_add bytes carry in
  Forall is_byte bytes'
  /\ length bytes' = length bytes
  /\ 0 <= carry' <= 57
  /\ le_value bytes' + 256 ^ Z.of_nat (length bytes) * carry'
     = 58 * le_value bytes + carry.
Proof.
  intros Hbytes. revert carry.
  induction Hbytes as [|b bytes Hb Hbytes IH]; intros carry Hcarry;
    cbn [WithdrawAll.mul_add].
  - cbn. repeat split; [constructor|lia..].
  - unfold is_byte in Hb.
    assert (0 <= carry + b * 58 < 2 ^ 31) as Hsmall by lia.
    rewrite (js_sar_8 _ Hsmall), (js_and_255 _ Hsmall).
    assert (0 <= (carry + b * 58) / 256 <= 57) as Hnext.
    { split; [apply Z.div_pos; lia|]. apply Z.lt_succ_r, Z.div_lt_upper_bound; lia. }
    specialize (IH _ Hnext).
    destruct (WithdrawAll.mul_add bytes ((carry + b * 58) / 256)) as [bytes' carry'].
    destruct IH as (Hbytes' & Hlen & Hcarry' & Hvalue).
    split; [|split; [|split]].
    + constructor; [|done]. unfold is_byte. apply Z.mod_pos_bound. lia.
    + cbn. by rewrite Hlen.
    + done.
    + cbn [le_value length]. rewrite Nat2Z.inj_succ, Z.pow_succ_r by lia.
      pose proof (Z.div_mod (carry + b * 58) 256 ltac:(lia)). lia.
Qed.

Lemma push_carry_spec (bytes : list Z) (carry : Z) :
  Forall is_byte bytes -> 0 <= carry < 2 ^ 31 ->
  Forall is_byte (WithdrawAll.push_carry bytes carry)
  /\ le_value (WithdrawAll.push_carry bytes carry)
     = le_value bytes + 256 ^ Z.of_nat (length bytes) * carry.
Proof.
  funelim (WithdrawAll.push_carry bytes carry); intros Hbytes Hcarry.
  - assert (0 <= carry / 256 < 2 ^ 31) as Hnext.
    { split; [apply Z.div_pos; lia|]. apply Z.div_lt_upper_bound; lia. }
    rewrite (js_sar_8 _ Hcarry), (js_and_255 _ Hcarry) in *.
    destruct H as [Hout Hvalue]; [|exact Hnext|].
    { apply Forall_app. split; [done|]. constructor; [|constructor].
      unfold is_byte. apply Z.mod_pos_bound. lia. }
    split; [exact Hout|]. rewrite Hvalue, le_value_app, length_app. cbn [length].
    rewrite Nat2Z.inj_add, Z.pow_add_r by lia. change (256 ^ Z.of_nat 1) with 256.
    pose proof (Z.div_mod carry 256 ltac:(lia)). lia.
  - split; [done|]. assert (carry = 0) as -> by lia. lia.
Qed.

(** The digits of the alphabet map are the indices 0..57. *)
Lemma fill_map_lookup_Some (cs : list string) (i : Z) (m : gmap string Z)
    (c : string) (v : Z) :
  WithdrawAll.fill_map cs i m !! c = Some v ->
  i <= v < i + Z.of_nat (length cs) \/ m !! c = Some v.
Proof.
  revert i m; induction cs as [|c' cs IH]; intros i m; cbn [WithdrawAll.fill_map length].
  - auto.
  - intros Hv. apply IH in Hv as [Hv|Hv]; [left; lia|].
    apply lookup_insert_Some in Hv as [[_ <-]|[_ Hv]]; [left; lia|by right].
Qed.

Lemma ALPHABET_MAP_digit (c : string) (v : Z) :
  WithdrawAll.ALPHABET_MAP !! c = Some v -> 0 <= v <= 57.
Proof.
  intros Hv. apply fill_map_lookup_Some in Hv as [Hv|Hv].
  - rewrite chars_length in Hv. cbn in Hv. lia.
  - by rewrite lookup_empty in Hv.
Qed.

(** The digits a string spells, when all its characters are in the
    alphabet. *)
Lemma decode_chars_spec (cs : list string) (bytes out : list Z) :
  Forall is_byte bytes ->
  WithdrawAll.decode_chars cs bytes = Returns out ->
  exists digits,
    Forall2 (fun c d => WithdrawAll.ALPHABET_MAP !! c = Some d) cs digits
    /\ Forall is_byte out
    /\ le_value out = base58_value digits (le_value bytes).
Proof.
  revert bytes; induction cs as [|char cs IH]; intros bytes Hbytes;
    cbn [WithdrawAll.decode_chars].
  - intros [= <-]. exists []. split; [constructor|done].
  - destruct (WithdrawAll.ALPHABET_MAP !! char) as [value|] eqn:Hchar; [|done].
    pose proof (ALPHABET_MAP_digit _ _ Hchar) as Hvalue.
    pose proof (mul_add_spec bytes value Hbytes Hvalue) as Hmul.
    destruct (WithdrawAll.mul_add bytes value) as [bytes' carry].
    destruct Hmul as (Hbytes' & Hlen & Hcarry & Hmul).
    destruct (push_carry_spec bytes' carry Hbytes' ltac:(lia)) as [Hpushed Hpush].
    intros Hout. destruct (IH _ Hpushed Hout) as (digits & Hdigits & Hout' & Hval).
    exists (value :: digits). split; [|split; [done|]].
    + by constructor.
    + cbn [base58_value]. rewrite Hval, Hpush, Hlen. f_equal. lia.
Qed.

Lemma leading_zeros_spec (cs : list string) (bytes : list Z) :
  Forall is_byte bytes ->
  Forall is_byte (WithdrawAll.leading_zeros cs bytes)
  /\ le_value (WithdrawAll.leading_zeros cs bytes) = le_value bytes.
Proof.
  revert bytes; induction cs as [|char cs IH]; intros bytes Hbytes;
    cbn [WithdrawAll.leading_zeros]; [done|].
  destruct (decide (char = "1")); [|done].
  destruct (IH (bytes ++ [0])) as [Hout Hvalue].
  { apply Forall_app. split; [done|]. repeat constructor; done. }
  split; [done|]. rewrite Hvalue, le_value_app. lia.
Qed.

Lemma Uint8Array_bytes (bytes : list Z) :
  Forall is_byte bytes -> Uint8Array bytes = bytes.
Proof.
  unfold Uint8Array. induction 1 as [|b bytes Hb _ IH]; cbn; [done|].
  rewrite IH. f_equal. apply Z.mod_small. exact Hb.
Qed.

(** The decoder returns bytes, and the number they hold, most significant
    byte first, is the number the string spells in base 58 with the digits of
    the alphabet. *)
Theorem decodeBase58_value (encoded : string) (out : list Z) :
  WithdrawAll.decodeBase58 encoded = Returns out ->
  exists digits,
    Forall2 (fun c d => WithdrawAll.ALPHABET_MAP !! c = Some d) (chars encoded) digits
    /\ Forall is_byte out
    /\ le_value (rev out) = base58_value digits 0.
Proof.
  unfold WithdrawAll.decodeBase58.
  destruct (decide (String.length encoded = 0%nat)) as [Hlen|Hlen].
  - intros [= <-]. rewrite <- chars_length in Hlen. apply nil_length_inv in Hlen.
    rewrite Hlen. exists []. split; [constructor|]. split; [constructor|reflexivity].
  - destruct (WithdrawAll.decode_chars (chars encoded) [0]) as [bytes|] eqn:Hdecode; [|done].
    assert (Forall is_byte [0]) as Hzero by (repeat constructor; done).
    destruct (decode_chars_spec _ _ _ Hzero Hdecode) as (digits & Hdigits & Hbytes & Hvalue).
    destruct (leading_zeros_spec (chars encoded) bytes Hbytes) as [Hpadded Hsame].
    intros [= <-]. exists digits. split; [done|].
    rewrite Uint8Array_bytes by (by apply Forall_rev).
    split; [by apply Forall_rev|].
    rewrite rev_involutive, Hsame, Hvalue. reflexivity.
Qed.

(** The key "2g" is the byte 97. *)
Lemma decodeBase58_value_example :
  WithdrawAll.decodeBase58 "2g" = Returns [97]
  /\ exists digits,
       Forall2 (fun c d => WithdrawAll.ALPHABET_MAP !! c = Some d) (chars "2g") digits
       /\ Forall is_byte [97]
       /\ le_value (rev [97]) = base58_value digits 0.
Proof.
  assert (WithdrawAll.decodeBase58 "2g" = Returns [97]) as H by (vm_compute; reflexivity).
  split; [exact H|]. exact (decodeBase58_value "2g" [97] H).
Defined.

(** ** The range check of open-position *)

(** open-position checks the price range before it touches the network: with
    a bound that is not a number, or a lower bound that is not below the
    upper one, it only converts the amount, prints the failure "Invalid price
    range" and exits with code 1. *)
Theorem open_position_rejects_invalid_range
    (w : World) (whirlpoolAddress arg1 arg2 arg3 : string) (rest : list string)
    (tokenAmount : Z) :
  drop 2 (argv w) = whirlpoolAddress :: arg1 :: arg2 :: arg3 :: rest ->
  oracle w (BigInt arg3) = Returns tokenAmount ->
  isNaN (parseFloat w arg1) || isNaN (parseFloat w arg2)
    || number_ge (parseFloat w arg1) (parseFloat w arg2) = true ->
  OpenPosition.main w
  = ([Called (BigInt arg3);
      ConsoleLog (OpenPosition.OpenPositionError
                    "Invalid price range: lowerPrice must be < upperPrice") 0],
     Exited 1).
Proof.
  intros Hargs Hamount Hrange. unfold OpenPosition.main. rewrite Hargs.
  unfold call. rewrite Hamount. cbn [mbind Run_bind]. rewrite Hrange. reflexivity.
Qed.

(** A range given upside down. *)
Lemma open_position_rejects_invalid_range_example :
  OpenPosition.main
    (example_world ["node"; "open-position.js"; "Pool"; "105"; "95"; "1000000"]
       0 None (fun _ => None))
  = ([Called (BigInt "1000000");
      ConsoleLog (OpenPosition.OpenPositionError
                    "Invalid price range: lowerPrice must be < upperPrice") 0],
     Exited 1).
Proof.
  apply (open_position_rejects_invalid_range _ "Pool" "105" "95" "1000000" [] 1000000);
    reflexivity.
Defined.


(** ** The shape of decoded keys *)

Lemma decodeBase58_same (encoded : string) :
  OpenPosition.decodeBase58 encoded = WithdrawAll.decodeBase58 encoded.
Proof.
  unfold WithdrawAll.decodeBase58, OpenPosition.decodeBase58.
  by rewrite decode_chars_copies.
Qed.

Lemma chars_app (s1 s2 : string) : chars (s1 +:+ s2) = chars s1 ++ chars s2.
Proof. induction s1 as [|a s1 IH]; cbn; [done|]. by rewrite <- IH. Qed.

Lemma chars_inj (s1 s2 : string) : chars s1 = chars s2 -> s1 = s2.
Proof.
  revert s2; induction s1 as [|a s1 IH]; intros [|b s2]; cbn; try done.
  intros [= -> H]. f_equal. by apply IH.
Qed.

(** A valid prefix is consumed; the first character outside the alphabet
    stops the loop with its message. *)
Lemma decode_chars_stops (cs : list string) (c : string) (cs' : list string)
    (bytes : list Z) :
  Forall (fun x => x ∈ chars WithdrawAll.ALPHABET) cs ->
  c ∉ chars WithdrawAll.ALPHABET ->
  WithdrawAll.decode_chars (cs ++ c :: cs') bytes
  = Throws ("Invalid base58 character: " +:+ c).
Proof.
  intros Hcs Hc. revert bytes.
  induction Hcs as [|x cs Hx _ IH]; intros bytes;
    cbn [app WithdrawAll.decode_chars].
  - apply ALPHABET_MAP_None in Hc. by rewrite Hc.
  - destruct (WithdrawAll.ALPHABET_MAP !! x) as [value|] eqn:Hvalue.
    + destruct (WithdrawAll.mul_add bytes value). apply IH.
    + apply ALPHABET_MAP_None in Hvalue. contradiction.
Qed.

(** The decoder stops at the first character outside the alphabet. *)
Lemma decodeBase58_stops (valid : string) (c : Ascii.ascii) (rest : string) :
  Forall (fun x => x ∈ chars WithdrawAll.ALPHABET) (chars valid) ->
  String c EmptyString ∉ chars WithdrawAll.ALPHABET ->
  WithdrawAll.decodeBase58 (valid +:+ String c rest)
  = Throws ("Invalid base58 character: " +:+ String c EmptyString).
Proof.
  intros Hvalid Hc. unfold WithdrawAll.decodeBase58.
  destruct (decide _) as [Hlen|_].
  { rewrite <- chars_length, chars_app, length_app in Hlen. cbn in Hlen. lia. }
  rewrite chars_app. cbn [chars].
  by rewrite (decode_chars_stops _ _ _ _ Hvalid Hc).
Qed.

Lemma decodeBase58_bytes (encoded : string) (out : list Z) :
  WithdrawAll.decodeBase58 encoded = Returns out -> Forall is_byte out.
Proof.
  unfold WithdrawAll.decodeBase58.
  destruct (decide _); [by intros [= <-]|].
  destruct (WithdrawAll.decode_chars (chars encoded) [0]) as [bytes|] eqn:Hdecode; [|done].
  assert (Forall is_byte [0]) as Hzero by (repeat constructor; done).
  destruct (decode_chars_spec _ _ _ Hzero Hdecode) as (digits & _ & Hbytes & _).
  destruct (leading_zeros_spec (chars encoded) bytes Hbytes) as [Hpadded _].
  intros [= <-]. rewrite Uint8Array_bytes by (by apply Forall_rev). by apply Forall_rev.
Qed.

Lemma Uint8Array_is_bytes (numbers : list Z) : Forall is_byte (Uint8Array numbers).
Proof.
  unfold Uint8Array. apply Forall_fmap, Forall_true. intros x. cbn.
  unfold is_byte. apply Z.mod_pos_bound. lia.
Qed.

(** Both copies of decodeBase58 refuse a string at its first character
    outside the alphabet, whatever follows it: for an ASCII character the
    error is "Invalid base58 character: " followed by that character. *)
Theorem decodeBase58_names_first_invalid_character
    (valid : string) (c : Ascii.ascii) (rest : string) :
  Forall (fun x => x ∈ chars WithdrawAll.ALPHABET) (chars valid) ->
  is_ascii c ->
  String c EmptyString ∉ chars WithdrawAll.ALPHABET ->
  WithdrawAll.decodeBase58 (valid +:+ String c rest)
  = Throws ("Invalid base58 character: " +:+ String c EmptyString)
  /\ OpenPosition.decodeBase58 (valid +:+ String c rest)
     = Throws ("Invalid base58 character: " +:+ String c EmptyString).
Proof.
  intros Hvalid _ Hc. rewrite decodeBase58_same.
  split; exact (decodeBase58_stops valid c rest Hvalid Hc).
Qed.

(** The digit 0 is not in the alphabet: "2g0x" is refused at its "0". *)
Lemma decodeBase58_names_first_invalid_character_example :
  WithdrawAll.decodeBase58 "2g0x" = Throws "Invalid base58 character: 0"
  /\ OpenPosition.decodeBase58 "2g0x" = Throws "Invalid base58 character: 0".
Proof.
  apply (decodeBase58_names_first_invalid_character "2g" (Ascii.ascii_of_nat 48) "x").
  - apply (bool_decide_unpack _). vm_compute. exact I.
  - unfold is_ascii. vm_compute. lia.
  - apply (bool_decide_unpack _). vm_compute. exact I.
Defined.


Lemma leading_zeros_eq (cs : list string) (bytes : list Z) :
  WithdrawAll.leading_zeros cs bytes = bytes ++ replicate (leading_ones cs) 0.
Proof.
  revert bytes; induction cs as [|c cs IH]; intros bytes;
    cbn [WithdrawAll.leading_zeros leading_ones].
  - cbn. by rewrite app_nil_r.
  - destruct (decide (c = "1")); cbn; [|by rewrite app_nil_r].
    rewrite IH, <- app_assoc. reflexivity.
Qed.

Lemma le_value_bound (bytes : list Z) :
  Forall is_byte bytes -> 0 <= le_value bytes < 256 ^ Z.of_nat (length bytes).
Proof.
  induction 1 as [|b bytes Hb _ IH]; cbn [le_value length]; [cbn; lia|].
  unfold is_byte in Hb. rewrite Nat2Z.inj_succ, Z.pow_succ_r by lia. lia.
Qed.

(** Least significant byte first: the single byte 0, or a last byte that is
    not 0. *)
Lemma shortest_rev_snoc (bytes : list Z) (b : Z) :
  b <> 0 -> shortest (rev (bytes ++ [b])).
Proof. intros Hb. right. rewrite rev_app_distr. cbn. eauto. Qed.

Lemma shortest_rev_inv (bytes : list Z) :
  shortest (rev bytes) -> bytes = [0] \/ exists rest b, bytes = rest ++ [b] /\ b <> 0.
Proof.
  intros [H|(b & rest & H & Hb)].
  - left. apply (f_equal (@rev Z)) in H. by rewrite rev_involutive in H.
  - right. exists (rev rest), b. split; [|done].
    apply (f_equal (@rev Z)) in H. rewrite rev_involutive in H. by rewrite H.
Qed.

Lemma push_carry_zero (bytes : list Z) : WithdrawAll.push_carry bytes 0 = bytes.
Proof.
  rewrite WithdrawAll.push_carry_equation_1.
  destruct (decide (0 < 0)); [lia|reflexivity].
Qed.

Lemma push_carry_small (bytes : list Z) (carry : Z) :
  0 < carry < 256 -> WithdrawAll.push_carry bytes carry = bytes ++ [carry].
Proof.
  intros Hcarry. rewrite WithdrawAll.push_carry_equation_1.
  destruct (decide (0 < carry)); [|lia]. cbn.
  rewrite js_sar_8, js_and_255 by lia.
  rewrite Z.div_small, Z.mod_small by lia. apply push_carry_zero.
Qed.

(** One round of the decoding loop keeps the bytes as few as possible. *)
Lemma round_shortest (bytes : list Z) (value : Z) :
  Forall is_byte bytes -> 0 <= value <= 57 ->
  shortest (rev bytes) ->
  let '(bytes', carry) := WithdrawAll.mul_add bytes value in
  shortest (rev (WithdrawAll.push_carry bytes' carry)).
Proof.
  intros Hbytes Hvalue Hshort.
  pose proof (mul_add_spec bytes value Hbytes Hvalue) as Hspec.
  destruct (WithdrawAll.mul_add bytes value) as [bytes' carry] eqn:Hmul.
  destruct Hspec as (Hbytes' & Hlen & Hcarry & Hsum).
  destruct (decide (carry = 0)) as [->|Hpos].
  2:{ rewrite push_carry_small by lia. apply shortest_rev_snoc. exact Hpos. }
  rewrite push_carry_zero.
  apply shortest_rev_inv in Hshort as [->|(rest & b & -> & Hb)].
  - cbn in Hmul. rewrite js_and_255, js_sar_8 in Hmul by lia.
    injection Hmul as <- _. rewrite Z.add_0_r, Z.mod_small by lia.
    destruct (decide (value = 0)) as [->|Hv]; [by left|right; eauto].
  - destruct bytes' as [|b0 bytes0] using rev_ind.
    { rewrite length_app in Hlen. cbn in Hlen. lia. }
    clear IHbytes0.
    destruct (decide (b0 = 0)) as [->|Hb0]; [|by apply shortest_rev_snoc].
    exfalso.
    apply Forall_app in Hbytes as [Hrest Hb']. apply Forall_app in Hbytes' as [Hbytes0 _].
    apply Forall_singleton in Hb'. unfold is_byte in Hb'.
    rewrite !length_app in Hlen. cbn in Hlen.
    rewrite !le_value_app in Hsum.
    pose proof (le_value_bound _ Hrest) as Hr.
    pose proof (le_value_bound _ Hbytes0) as H0.
    assert (length bytes0 = length rest) as Hsame by lia. rewrite Hsame in H0.
    assert (0 < 256 ^ Z.of_nat (length rest)) by (apply Z.pow_pos_nonneg; lia).
    nia.
Qed.

Lemma decode_chars_shortest (cs : list string) (bytes out : list Z) :
  Forall is_byte bytes -> shortest (rev bytes) ->
  WithdrawAll.decode_chars cs bytes = Returns out ->
  shortest (rev out).
Proof.
  revert bytes; induction cs as [|char cs IH]; intros bytes Hbytes Hshort;
    cbn [WithdrawAll.decode_chars].
  - by intros [= <-].
  - destruct (WithdrawAll.ALPHABET_MAP !! char) as [value|] eqn:Hchar; [|done].
    pose proof (ALPHABET_MAP_digit _ _ Hchar) as Hvalue.
    pose proof (round_shortest bytes value Hbytes Hvalue Hshort) as Hround.
    pose proof (mul_add_spec bytes value Hbytes Hvalue) as Hmul.
    destruct (WithdrawAll.mul_add bytes value) as [bytes' carry].
    destruct Hmul as (Hbytes' & _ & Hcarry & _).
    destruct (push_carry_spec bytes' carry Hbytes' ltac:(lia)) as [Hpushed _].
    eauto.
Qed.

(** A shortest list of bytes is [[0]] exactly when it holds 0. *)
Lemma shortest_zero (body : list Z) :
  Forall is_byte body -> shortest body ->
  le_value (rev body) = 0 <-> body = [0].
Proof.
  intros Hbody Hshort. split; [|by intros ->].
  destruct Hshort as [->|(b & rest & -> & Hb)]; [done|].
  apply Forall_cons in Hbody as [Hb' Hrest]. unfold is_byte in Hb'.
  cbn [rev]. change (Datatypes.app) with (@app Z). rewrite le_value_app.
  pose proof (le_value_bound (rev rest) ltac:(by apply Forall_rev)) as Hr.
  assert (0 < 256 ^ Z.of_nat (length (rev rest))) by (apply Z.pow_pos_nonneg; lia).
  nia.
Qed.

Lemma replicate_snoc {A} (n : nat) (x : A) : replicate n x ++ [x] = x :: replicate n x.
Proof. induction n as [|n IH]; cbn; [done|]. by rewrite IH. Qed.

Lemma rev_replicate {A} (n : nat) (x : A) : rev (replicate n x) = replicate n x.
Proof.
  induction n as [|n IH]; cbn; [done|].
  change (Datatypes.app) with (@app A). by rewrite IH, replicate_snoc.
Qed.

(** The parts of a decoded string: one zero byte for each leading "1", then
    the number in as few bytes as it takes. *)
Lemma decodeBase58_parts (encoded : string) (out : list Z) :
  encoded <> "" ->
  WithdrawAll.decodeBase58 encoded = Returns out ->
  exists digits body,
    spells encoded digits
    /\ out = replicate (leading_ones (chars encoded)) 0 ++ body
    /\ Forall is_byte body
    /\ shortest body
    /\ le_value (rev body) = base58_value digits 0
    /\ (base58_value digits 0 = 0 <-> body = [0]).
Proof.
  intros Hne. unfold WithdrawAll.decodeBase58.
  destruct (decide (String.length encoded = 0%nat)) as [Hlen|_].
  { destruct encoded; [done|discriminate Hlen]. }
  destruct (WithdrawAll.decode_chars (chars encoded) [0]) as [bytes|] eqn:Hdecode; [|done].
  assert (Forall is_byte [0]) as Hzero by (repeat constructor; done).
  destruct (decode_chars_spec _ _ _ Hzero Hdecode) as (digits & Hdigits & Hbytes & Hvalue).
  assert (shortest (rev bytes)) as Hshort.
  { eapply decode_chars_shortest; [exact Hzero|by left|exact Hdecode]. }
  intros [= <-]. exists digits, (rev bytes).
  rewrite leading_zeros_eq, rev_app_distr, rev_replicate.
  assert (Forall is_byte (rev bytes)) as Hrev by (by apply Forall_rev).
  rewrite Uint8Array_bytes.
  2:{ apply Forall_app. split; [|done]. apply Forall_replicate. done. }
  repeat split; try done.
  - by rewrite rev_involutive.
  - rewrite <- (shortest_zero _ Hrev Hshort), rev_involutive. by rewrite Hvalue.
  - rewrite <- (shortest_zero _ Hrev Hshort), rev_involutive. by rewrite Hvalue.
Qed.

(** What either copy of decodeBase58 returns for a string that is not empty:
    one zero byte for each leading "1" of the string, followed by the number
    the string spells, most significant byte first and without a leading zero
    byte, except that the number 0 is the single byte 0.  So a string of n
    "1"s decodes to n + 1 zero bytes. *)
Theorem decodeBase58_shape (encoded : string) (out : list Z) :
  encoded <> "" ->
  WithdrawAll.decodeBase58 encoded = Returns out
  \/ OpenPosition.decodeBase58 encoded = Returns out ->
  exists digits body,
    spells encoded digits
    /\ out = replicate (leading_ones (chars encoded)) 0 ++ body
    /\ Forall is_byte body
    /\ shortest body
    /\ le_value (rev body) = base58_value digits 0
    /\ (base58_value digits 0 = 0 <-> body = [0]).
Proof.
  intros Hne [Hdecoded|Hdecoded].
  - exact (decodeBase58_parts encoded out Hne Hdecoded).
  - rewrite decodeBase58_same in Hdecoded.
    exact (decodeBase58_parts encoded out Hne Hdecoded).
Qed.

(** Two "1"s decode to three zero bytes. *)
Lemma decodeBase58_shape_example :
  WithdrawAll.decodeBase58 "11" = Returns [0; 0; 0]
  /\ exists digits body,
       spells "11" digits
       /\ [0; 0; 0] = replicate (leading_ones (chars "11")) 0 ++ body
       /\ Forall is_byte body
       /\ shortest body
       /\ le_value (rev body) = base58_value digits 0
       /\ (base58_value digits 0 = 0 <-> body = [0]).
Proof.
  assert (WithdrawAll.decodeBase58 "11" = Returns [0; 0; 0]) as H
    by (vm_compute; reflexivity).
  split; [exact H|].
  apply (decodeBase58_shape "11" [0; 0; 0]); [discriminate|left; exact H].
Defined.


(** *** The decoder is injective *)

Lemma fill_map_lookup_index (cs : list string) (i : Z) (m : gmap string Z)
    (c : string) (v : Z) :
  WithdrawAll.fill_map cs i m !! c = Some v ->
  (exists k, cs !! k = Some c /\ v = i + Z.of_nat k) \/ m !! c = Some v.
Proof.
  revert i m; induction cs as [|c' cs IH]; intros i m; cbn [WithdrawAll.fill_map].
  - auto.
  - intros Hv. apply IH in Hv as [(k & Hk & ->)|Hv].
    + left. exists (S k). split; [done|lia].
    + apply lookup_insert_Some in Hv as [[-> <-]|[_ Hv]]; [|by right].
      left. exists O. split; [done|lia].
Qed.

(** No two characters of the alphabet share a digit. *)
Lemma ALPHABET_MAP_inj (c1 c2 : string) (v : Z) :
  WithdrawAll.ALPHABET_MAP !! c1 = Some v ->
  WithdrawAll.ALPHABET_MAP !! c2 = Some v ->
  c1 = c2.
Proof.
  intros H1 H2.
  apply fill_map_lookup_index in H1 as [(k1 & Hk1 & ->)|H1];
    [|by rewrite lookup_empty in H1].
  apply fill_map_lookup_index in H2 as [(k2 & Hk2 & Heq)|H2];
    [|by rewrite lookup_empty in H2].
  assert (k1 = k2) as -> by lia. congruence.
Qed.

Lemma ALPHABET_MAP_one : WithdrawAll.ALPHABET_MAP !! "1" = Some 0.
Proof. vm_compute. reflexivity. Qed.

Lemma spelled_chars_inj (cs1 cs2 : list string) (digits : list Z) :
  Forall2 (fun c d => WithdrawAll.ALPHABET_MAP !! c = Some d) cs1 digits ->
  Forall2 (fun c d => WithdrawAll.ALPHABET_MAP !! c = Some d) cs2 digits ->
  cs1 = cs2.
Proof.
  intros H1. revert cs2. induction H1 as [|c1 d cs1 digits Hc1 _ IH]; intros cs2 H2.
  - by apply Forall2_nil_inv_r in H2.
  - apply Forall2_cons_inv_r in H2 as (c2 & cs2' & Hc2 & H2 & ->).
    f_equal; [by eapply ALPHABET_MAP_inj|by apply IH].
Qed.

Lemma spelled_digits (cs : list string) (digits : list Z) :
  Forall2 (fun c d => WithdrawAll.ALPHABET_MAP !! c = Some d) cs digits ->
  Forall is_digit58 digits.
Proof.
  induction 1 as [|c d cs digits Hc _ IH]; constructor; [|done].
  apply ALPHABET_MAP_digit in Hc. unfold is_digit58. lia.
Qed.

(** The leading ["1"]s of the string are the leading zeros of its digits. *)
Lemma spelled_leading_ones (cs : list string) (digits : list Z) :
  Forall2 (fun c d => WithdrawAll.ALPHABET_MAP !! c = Some d) cs digits ->
  exists significant,
    digits = replicate (leading_ones cs) 0 ++ significant
    /\ (significant = [] \/ exists d rest, significant = d :: rest /\ d <> 0).
Proof.
  induction 1 as [|c d cs digits Hc _ IH]; cbn [leading_ones].
  - exists []. split; [done|by left].
  - destruct (decide (c = "1")) as [->|Hc1].
    + rewrite ALPHABET_MAP_one in Hc. injection Hc as <-.
      destruct IH as (significant & -> & Hs). exists significant. done.
    + exists (d :: digits). split; [done|]. right. exists d, digits. split; [done|].
      intros ->. apply Hc1. eapply ALPHABET_MAP_inj; [exact Hc|exact ALPHABET_MAP_one].
Qed.

Lemma base58_value_acc (digits : list Z) (acc : Z) :
  base58_value digits acc
  = acc * 58 ^ Z.of_nat (length digits) + base58_value digits 0.
Proof.
  revert acc; induction digits as [|d digits IH]; intros acc; cbn [base58_value length].
  - cbn. lia.
  - rewrite IH, (IH (0 * 58 + d)), Nat2Z.inj_succ, Z.pow_succ_r by lia. lia.
Qed.

Lemma base58_value_bound (digits : list Z) :
  Forall is_digit58 digits ->
  0 <= base58_value digits 0 < 58 ^ Z.of_nat (length digits).
Proof.
  induction 1 as [|d digits Hd _ IH]; cbn [base58_value length]; [cbn; lia|].
  unfold is_digit58 in Hd.
  rewrite base58_value_acc, Nat2Z.inj_succ, Z.pow_succ_r by lia. nia.
Qed.

Lemma base58_value_zeros (n : nat) (digits : list Z) :
  base58_value (replicate n 0 ++ digits) 0 = base58_value digits 0.
Proof. induction n as [|n IH]; cbn; [done|exact IH]. Qed.

(** Digits of the same length that spell the same number are the same. *)
Lemma base58_value_inj_length (ds1 ds2 : list Z) :
  Forall is_digit58 ds1 -> Forall is_digit58 ds2 ->
  length ds1 = length ds2 ->
  base58_value ds1 0 = base58_value ds2 0 ->
  ds1 = ds2.
Proof.
  intros H1. revert ds2. induction H1 as [|d1 ds1 Hd1 H1 IH]; intros ds2 H2 Hlen Hval.
  - destruct ds2; [done|discriminate Hlen].
  - destruct H2 as [|d2 ds2 Hd2 H2]; [discriminate Hlen|].
    injection Hlen as Hlen. cbn [base58_value] in Hval.
    rewrite (base58_value_acc ds1), (base58_value_acc ds2), Hlen in Hval.
    pose proof (base58_value_bound _ H1) as B1.
    pose proof (base58_value_bound _ H2) as B2.
    rewrite Hlen in B1. unfold is_digit58 in Hd1, Hd2.
    assert (d1 = d2) as -> by nia.
    f_equal. apply IH; [done|done|lia].
Qed.

(** Digits without leading zero that spell the same number are the same. *)
Lemma base58_value_inj (ds1 ds2 : list Z) :
  Forall is_digit58 ds1 -> Forall is_digit58 ds2 ->
  (ds1 = [] \/ exists d rest, ds1 = d :: rest /\ d <> 0) ->
  (ds2 = [] \/ exists d rest, ds2 = d :: rest /\ d <> 0) ->
  base58_value ds1 0 = base58_value ds2 0 ->
  ds1 = ds2.
Proof.
  intros H1 H2 N1 N2 Hval.
  assert (forall ds, Forall is_digit58 ds ->
            (ds = [] \/ exists d rest, ds = d :: rest /\ d <> 0) ->
            58 ^ Z.of_nat (length ds) <= 58 * base58_value ds 0 + 1
            /\ base58_value ds 0 < 58 ^ Z.of_nat (length ds)) as Hrange.
  { intros ds Hds [->|(d & rest & -> & Hd)]; [cbn; lia|].
    apply Forall_cons in Hds as [Hd' Hrest]. unfold is_digit58 in Hd'.
    pose proof (base58_value_bound _ Hrest) as B.
    cbn [base58_value length]. rewrite base58_value_acc, Nat2Z.inj_succ, Z.pow_succ_r by lia.
    nia. }
  apply base58_value_inj_length; try done.
  destruct (Hrange _ H1 N1) as [L1 U1]. destruct (Hrange _ H2 N2) as [L2 U2].
  rewrite Hval in L1, U1.
  destruct (Nat.lt_trichotomy (length ds1) (length ds2)) as [Hlt|[Heq|Hlt]]; [|done|]; exfalso.
  - assert (58 * 58 ^ Z.of_nat (length ds1) <= 58 ^ Z.of_nat (length ds2)).
    { rewrite <- Z.pow_succ_r by lia. apply Z.pow_le_mono_r; lia. }
    lia.
  - assert (58 * 58 ^ Z.of_nat (length ds2) <= 58 ^ Z.of_nat (length ds1)).
    { rewrite <- Z.pow_succ_r by lia. apply Z.pow_le_mono_r; lia. }
    lia.
Qed.

(** Zero bytes before a shortest body: the count and the body are read off
    the whole. *)
Lemma zeros_body_inj (k1 k2 : nat) (body1 body2 : list Z) :
  shortest body1 -> shortest body2 ->
  replicate k1 0 ++ body1 = replicate k2 0 ++ body2 ->
  k1 = k2 /\ body1 = body2.
Proof.
  intros S1 S2. revert k2; induction k1 as [|k1 IH]; intros [|k2]; cbn.
  - done.
  - intros ->. destruct S1 as [[= Hnil]|(b & rest & [= <- _] & Hb)]; [|done].
    destruct k2; cbn in Hnil; [|discriminate Hnil].
    subst body2. destruct S2 as [[=]|(? & ? & [=] & _)].
  - intros <-. destruct S2 as [[= Hnil]|(b & rest & [= <- _] & Hb)]; [|done].
    destruct k1; cbn in Hnil; [|discriminate Hnil].
    subst body1. destruct S1 as [[=]|(? & ? & [=] & _)].
  - intros [= H]. apply IH in H as [-> ->]. done.
Qed.

(** The decoder is injective: the bytes tell the string. *)
Lemma decodeBase58_inj (encoded1 encoded2 : string) (out : list Z) :
  WithdrawAll.decodeBase58 encoded1 = Returns out ->
  WithdrawAll.decodeBase58 encoded2 = Returns out ->
  encoded1 = encoded2.
Proof.
  assert (forall encoded out', encoded <> "" ->
            WithdrawAll.decodeBase58 encoded = Returns out' -> out' <> []) as Hnonempty.
  { intros encoded out' Hne Hdec.
    destruct (decodeBase58_parts _ _ Hne Hdec) as (ds & body & _ & -> & _ & Hs & _).
    destruct Hs as [->|(b & rest & -> & _)]; by destruct (replicate _ _). }
  intros H1 H2.
  destruct (decide (encoded1 = "")) as [->|Hne1];
    [destruct (decide (encoded2 = "")) as [->|Hne2]; [done|]|].
  { injection H1 as <-. by destruct (Hnonempty _ _ Hne2 H2). }
  destruct (decide (encoded2 = "")) as [->|Hne2].
  { injection H2 as <-. by destruct (Hnonempty _ _ Hne1 H1). }
  destruct (decodeBase58_parts _ _ Hne1 H1) as (ds1 & body1 & Hsp1 & Hout1 & _ & Hs1 & Hv1 & _).
  destruct (decodeBase58_parts _ _ Hne2 H2) as (ds2 & body2 & Hsp2 & Hout2 & _ & Hs2 & Hv2 & _).
  rewrite Hout1 in Hout2. apply zeros_body_inj in Hout2 as [Hk <-]; [|done..].
  destruct (spelled_leading_ones _ _ Hsp1) as (sig1 & Hd1 & N1).
  destruct (spelled_leading_ones _ _ Hsp2) as (sig2 & Hd2 & N2).
  pose proof (spelled_digits _ _ Hsp1) as D1. pose proof (spelled_digits _ _ Hsp2) as D2.
  assert (sig1 = sig2) as Hsig.
  { apply base58_value_inj; try done.
    - rewrite Hd1 in D1. by apply Forall_app in D1 as [_ ?].
    - rewrite Hd2 in D2. by apply Forall_app in D2 as [_ ?].
    - rewrite <- (base58_value_zeros (leading_ones (chars encoded1)) sig1), <- Hd1.
      rewrite <- (base58_value_zeros (leading_ones (chars encoded2)) sig2), <- Hd2.
      congruence. }
  assert (ds1 = ds2) as <- by (rewrite Hd1, Hd2, Hk, Hsig; reflexivity).
  apply chars_inj. eapply spelled_chars_inj; [exact Hsp1|exact Hsp2].
Qed.

(** decodeBase58 never maps two different strings to the same bytes: a key
    cannot be spelled in two ways, and each leading "1" counts. *)
Theorem decodeBase58_distinguishes_strings
    (encoded1 encoded2 : string) (out1 out2 : list Z) :
  encoded1 <> encoded2 ->
  WithdrawAll.decodeBase58 encoded1 = Returns out1 ->
  WithdrawAll.decodeBase58 encoded2 = Returns out2 ->
  out1 <> out2.
Proof.
  intros Hne H1 H2 Hsame. subst out2.
  apply Hne. exact (decodeBase58_inj encoded1 encoded2 out1 H1 H2).
Qed.

(** "2g" and "12g" spell the same number, and decode to different bytes. *)
Lemma decodeBase58_distinguishes_strings_example :
  WithdrawAll.decodeBase58 "2g" = Returns [97]
  /\ WithdrawAll.decodeBase58 "12g" = Returns [0; 97]
  /\ [97] <> [0; 97].
Proof.
  assert (WithdrawAll.decodeBase58 "2g" = Returns [97]) as H1 by (vm_compute; reflexivity).
  assert (WithdrawAll.decodeBase58 "12g" = Returns [0; 97]) as H2
    by (vm_compute; reflexivity).
  split; [exact H1|]. split; [exact H2|].
  apply (decodeBase58_distinguishes_strings "2g" "12g" [97] [0; 97]);
    [discriminate|exact H1|exact H2].
Defined.

(** ** Keys *)

(** withdraw-all without a key: when neither SOLANA_PRIVATE_KEY nor
    SOLANA_KEYPAIR_PATH is set (or both are empty), the script makes no call
    at all, prints the failure "No keypair found. ..." with the position mint
    and exits with code 1. *)
Theorem withdraw_all_without_keypair (w : World) (positionMint : string) :
  truthy (argv w !! 2%nat) = Some positionMint ->
  truthy (env w !! "SOLANA_PRIVATE_KEY") = None ->
  truthy (env w !! "SOLANA_KEYPAIR_PATH") = None ->
  WithdrawAll.main w
  = ([ConsoleLog
        (WithdrawAll.WithdrawError
           "No keypair found. Set SOLANA_PRIVATE_KEY (base58) or SOLANA_KEYPAIR_PATH (JSON file path)"
           positionMint) 0],
     Exited 1).
Proof.
  intros Hargv Hkey Hpath.
  unfold WithdrawAll.main, WithdrawAll.withdraw, WithdrawAll.loadKeypair.
  rewrite Hargv, Hkey, Hpath. reflexivity.
Qed.

Lemma withdraw_all_without_keypair_example :
  WithdrawAll.main withdraw_no_keypair_world
  = ([ConsoleLog
        (WithdrawAll.WithdrawError
           "No keypair found. Set SOLANA_PRIVATE_KEY (base58) or SOLANA_KEYPAIR_PATH (JSON file path)"
           "PositionMint") 0],
     Exited 1).
Proof.
  apply (withdraw_all_without_keypair withdraw_no_keypair_world "PositionMint");
    vm_compute; reflexivity.
Defined.

(** open-position without a key: the run does not succeed, and it gets no
    further than converting the amount and configuring the SDK; no payer is
    set, no position is opened and nothing is sent. *)
Theorem open_position_without_keypair (w : World) :
  truthy (env w !! "SOLANA_PRIVATE_KEY") = None ->
  truthy (env w !! "SOLANA_KEYPAIR_PATH") = None ->
  completion (OpenPosition.main w) <> Normal tt
  /\ forall c, Called c ∈ trace (OpenPosition.main w) ->
       (exists s, c = BigInt s) \/ (exists rpcUrl, c = setRpc rpcUrl)
       \/ c = setWhirlpoolsConfig "solanaMainnet".
Proof.
  intros Hkey Hpath. wp_start (OpenPosition.main w).
  unfold OpenPosition.main, OpenPosition.open, OpenPosition.loadKeypairBytes.
  rewrite Hkey, Hpath. wp_run.
  all: split; [done|].
  all: intros c Hin; in_trace Hin.
  all: injection Hin as ->; eauto.
Qed.

Lemma open_position_without_keypair_example :
  completion (OpenPosition.main open_no_keypair_world) <> Normal tt
  /\ forall c, Called c ∈ trace (OpenPosition.main open_no_keypair_world) ->
       (exists s, c = BigInt s) \/ (exists rpcUrl, c = setRpc rpcUrl)
       \/ c = setWhirlpoolsConfig "solanaMainnet".
Proof.
  apply (open_position_without_keypair open_no_keypair_world); vm_compute; reflexivity.
Defined.

(** withdraw-all with a private key that is not base58: the failure result
    carries the decoder's message, which names the first character outside
    the alphabet (here an ASCII character); no call is made and the exit code
    is 1. *)
Theorem withdraw_all_rejects_malformed_key
    (w : World) (positionMint valid : string) (c : Ascii.ascii) (rest : string) :
  truthy (argv w !! 2%nat) = Some positionMint ->
  env w !! "SOLANA_PRIVATE_KEY" = Some (valid +:+ String c rest) ->
  Forall (fun x => x ∈ chars WithdrawAll.ALPHABET) (chars valid) ->
  is_ascii c ->
  String c EmptyString ∉ chars WithdrawAll.ALPHABET ->
  WithdrawAll.main w
  = ([ConsoleLog
        (WithdrawAll.WithdrawError
           ("Invalid base58 character: " +:+ String c EmptyString) positionMint) 0],
     Exited 1).
Proof.
  intros Hargv Hkey Hvalid _ Hc.
  unfold WithdrawAll.main, WithdrawAll.withdraw, WithdrawAll.loadKeypair.
  rewrite Hargv, Hkey. cbn [truthy].
  destruct (decide (valid +:+ String c rest = "")) as [Hempty|_].
  { apply (f_equal String.length) in Hempty.
    rewrite <- chars_length, chars_app, length_app in Hempty. cbn in Hempty. lia. }
  rewrite (decodeBase58_stops _ _ _ Hvalid Hc). reflexivity.
Qed.

Lemma withdraw_all_rejects_malformed_key_example :
  WithdrawAll.main malformed_key_world
  = ([ConsoleLog
        (WithdrawAll.WithdrawError "Invalid base58 character: 0" "PositionMint") 0],
     Exited 1).
Proof.
  apply (withdraw_all_rejects_malformed_key malformed_key_world "PositionMint"
           "2g" (Ascii.ascii_of_nat 48) "x").
  - vm_compute. reflexivity.
  - vm_compute. reflexivity.
  - apply (bool_decide_unpack _). vm_compute. exact I.
  - unfold is_ascii. vm_compute. lia.
  - apply (bool_decide_unpack _). vm_compute. exact I.
Defined.

(** When SOLANA_PRIVATE_KEY is set, neither withdraw-all nor open-position
    reads the keypair file: no [readFileSync] and no [JSON.parse] is made,
    whatever SOLANA_KEYPAIR_PATH holds. *)
Theorem private_key_takes_precedence (w : World) (key : string) :
  truthy (env w !! "SOLANA_PRIVATE_KEY") = Some key ->
  (forall c, Called c ∈ trace (WithdrawAll.main w) ->
     (forall path, c <> readFileSync path) /\ (forall text, c <> JSON_parse text))
  /\ (forall c, Called c ∈ trace (OpenPosition.main w) ->
        (forall path, c <> readFileSync path) /\ (forall text, c <> JSON_parse text)).
Proof.
  intros Hkey. split.
  - wp_start (WithdrawAll.main w).
    unfold WithdrawAll.main, WithdrawAll.withdraw, WithdrawAll.loadKeypair.
    rewrite Hkey. wp_run.
    all: intros c Hin; in_trace Hin.
    all: injection Hin as ->; split; intros; discriminate.
  - wp_start (OpenPosition.main w).
    unfold OpenPosition.main, OpenPosition.open, OpenPosition.loadKeypairBytes.
    rewrite Hkey. wp_run.
    all: intros c Hin; in_trace Hin.
    all: injection Hin as ->; split; intros; discriminate.
Qed.

Lemma private_key_takes_precedence_example :
  (forall c, Called c ∈ trace (WithdrawAll.main open_timeout_world) ->
     (forall path, c <> readFileSync path) /\ (forall text, c <> JSON_parse text))
  /\ (forall c, Called c ∈ trace (OpenPosition.main open_timeout_world) ->
        (forall path, c <> readFileSync path) /\ (forall text, c <> JSON_parse text)).
Proof.
  apply (private_key_takes_precedence open_timeout_world "2g"). vm_compute. reflexivity.
Defined.

(** The key material that withdraw-all hands to [createKeyPairSignerFromBytes]
    and open-position to [setPayerFromBytes] is always a list of bytes
    (0..255), whether it comes from the base58 key or from the JSON file. *)
Theorem keypairs_are_bytes (w : World) (bytes : list Z) :
  Called (createKeyPairSignerFromBytes bytes) ∈ trace (WithdrawAll.main w)
  \/ Called (setPayerFromBytes bytes) ∈ trace (OpenPosition.main w) ->
  Forall is_byte bytes.
Proof.
  intros [Hin|Hin]; revert Hin.
  - wp_start (WithdrawAll.main w).
    unfold WithdrawAll.main, WithdrawAll.withdraw, WithdrawAll.loadKeypair.
    wp_run.
    all: intros Hin; in_trace Hin.
    all: injection Hin as ->.
    all: first [eapply decodeBase58_bytes; eassumption | apply Uint8Array_is_bytes].
  - wp_start (OpenPosition.main w).
    unfold OpenPosition.main, OpenPosition.open, OpenPosition.loadKeypairBytes.
    wp_run.
    all: intros Hin; in_trace Hin.
    all: injection Hin as ->.
    all: first [eapply decodeBase58_bytes; rewrite <- decodeBase58_same; eassumption
               | apply Uint8Array_is_bytes].
Qed.

Lemma keypairs_are_bytes_example :
  Called (createKeyPairSignerFromBytes [97]) ∈ trace (WithdrawAll.main withdraw_timeout_world)
  /\ Forall is_byte [97].
Proof.
  assert (Called (createKeyPairSignerFromBytes [97])
            ∈ trace (WithdrawAll.main withdraw_timeout_world)) as Hin.
  { apply (list_elem_of_lookup_2 _ 0%nat). vm_compute. reflexivity. }
  split; [exact Hin|].
  apply (keypairs_are_bytes withdraw_timeout_world [97]). left. exact Hin.
Defined.

(** ** What withdraw-all sends, and when it reports success *)



(** withdraw-all sends at most one transaction, and only the one it has just
    simulated without error, to the same endpoint. *)
Theorem withdraw_all_sends_once_what_it_simulated (w : World) :
  sends (trace (WithdrawAll.main w)) = []
  \/ exists rpc txBase64 simulation,
       sends (trace (WithdrawAll.main w)) = [(rpc, txBase64)]
       /\ Called (simulateTransaction rpc txBase64) ∈ trace (WithdrawAll.main w)
       /\ oracle w (simulateTransaction rpc txBase64) = Returns simulation
       /\ sim_err simulation = None.
Proof.
  wp_start (WithdrawAll.main w).
  unfold WithdrawAll.main, WithdrawAll.withdraw, WithdrawAll.loadKeypair.
  wp_run.
  all: observe_sends.
  all: try (left; reflexivity).
  all: right; eexists _, _, _; split; [reflexivity|].
  all: split; [|split; eassumption].
  all: rewrite <- elem_of_calls; cbn [calls]; set_solver.
Qed.

(** The first poll of withdraw-all that does not leave the transaction
    pending decides the run, if it is one of the 30: the delays and polls of
    the run are the attempts up to that one, each after a delay of 2000 ms,
    and no more; a confirmed or finalized status gives the success result, a
    status with an error the failure "Transaction failed: ..." and a poll
    that throws the failure with its message, both with exit code 1. *)
Theorem withdraw_all_first_settled_poll_decides
    (w : World) (rpc signature : string) (k : nat) (p : Poll) :
  Called (getSignatureStatuses rpc signature 0) ∈ trace (WithdrawAll.main w) ->
  (k < 30)%nat ->
  pending_before w rpc signature k ->
  poll_answer (oracle w (getSignatureStatuses rpc signature k)) = p ->
  p <> Pending ->
  waiting (trace (WithdrawAll.main w)) = polls rpc signature 0 (S k)
  /\ sleeps (trace (WithdrawAll.main w)) = replicate (S k) 2000
  /\ exists positionMint,
       argv w !! 2%nat = Some positionMint
       /\ match p with
          | Pending => False
          | Confirmed =>
              completion (WithdrawAll.main w) = Normal tt
              /\ exists close,
                   stdout (trace (WithdrawAll.main w))
                   = [WithdrawAll.WithdrawResult positionMint close signature]
          | Failed err =>
              completion (WithdrawAll.main w) = Exited 1
              /\ stdout (trace (WithdrawAll.main w))
                 = [WithdrawAll.WithdrawError
                      ("Transaction failed: " +:+ stringified err) positionMint]
          | Unreachable msg =>
              completion (WithdrawAll.main w) = Exited 1
              /\ stdout (trace (WithdrawAll.main w))
                 = [WithdrawAll.WithdrawError msg positionMint]
          end.
Proof.
  intros Hin Hk Hbefore Hp Hne. revert Hin. wp_start (WithdrawAll.main w).
  unfold WithdrawAll.main, WithdrawAll.withdraw, WithdrawAll.loadKeypair.
  wp_run.
  all: intros Hin; in_trace Hin.
  all: match goal with H : Called _ = Called _ |- _ => injection H as <- <- _ end.
  all: match goal with
       | H : settle _ _ _ 0 _ = _ |- _ =>
           rewrite (settle_first w _ _ WithdrawAll.maxRetries k p Hk Hbefore Hp Hne) in H;
           injection H as <- Hsame; rewrite Hsame in *
       end.
  all: try (exfalso; apply Hne; reflexivity).
  all: argv_known.
  all: split; [observe_waiting; reflexivity|].
  all: observe.
  all: split; [by rewrite ?app_nil_r|].
  all: eexists; split; [eassumption|].
  all: split; [reflexivity|]; eauto.
Qed.

Lemma withdraw_all_first_settled_poll_decides_example :
  waiting (trace (WithdrawAll.main withdraw_confirmed_world))
  = polls mainnet "Signature" 0 3
  /\ sleeps (trace (WithdrawAll.main withdraw_confirmed_world)) = replicate 3 2000
  /\ exists positionMint,
       argv withdraw_confirmed_world !! 2%nat = Some positionMint
       /\ completion (WithdrawAll.main withdraw_confirmed_world) = Normal tt
       /\ exists close,
            stdout (trace (WithdrawAll.main withdraw_confirmed_world))
            = [WithdrawAll.WithdrawResult positionMint close "Signature"].
Proof.
  apply (withdraw_all_first_settled_poll_decides withdraw_confirmed_world
           mainnet "Signature" 2 Confirmed).
  - apply (list_elem_of_lookup_2 _ 21%nat). vm_compute. reflexivity.
  - lia.
  - intros [|[|j]] Hj; [reflexivity|reflexivity|lia].
  - vm_compute. reflexivity.
  - discriminate.
Defined.

(** ** More about open-position *)

(** The first poll of open-position that does not leave the transaction
    pending decides the run, if it is one of the 15: the delays and polls of
    the run are the attempts up to that one, each after a delay of 2000 ms,
    and no more, and no timeout warning is printed; a confirmed or finalized
    status gives the success result, a status with an error the failure
    "Transaction failed: ..." and a poll that throws the failure with its
    message, both with exit code 1. *)
Theorem open_position_first_settled_poll_decides
    (w : World) (rpc signature : string) (k : nat) (p : Poll) :
  Called (getSignatureStatuses rpc signature 0) ∈ trace (OpenPosition.main w) ->
  (k < 15)%nat ->
  pending_before w rpc signature k ->
  poll_answer (oracle w (getSignatureStatuses rpc signature k)) = p ->
  p <> Pending ->
  waiting (trace (OpenPosition.main w)) = polls rpc signature 0 (S k)
  /\ sleeps (trace (OpenPosition.main w)) = replicate (S k) 2000
  /\ (ConsoleError "Confirmation timeout - check Solscan for status"
        ∉ trace (OpenPosition.main w))
  /\ match p with
     | Pending => False
     | Confirmed =>
         completion (OpenPosition.main w) = Normal tt
         /\ exists opened lowerPrice upperPrice,
              stdout (trace (OpenPosition.main w))
              = [OpenPosition.OpenPositionResult opened lowerPrice upperPrice signature]
     | Failed err =>
         completion (OpenPosition.main w) = Exited 1
         /\ stdout (trace (OpenPosition.main w))
            = [OpenPosition.OpenPositionError
                 ("Transaction failed: " +:+ stringified err)]
     | Unreachable msg =>
         completion (OpenPosition.main w) = Exited 1
         /\ stdout (trace (OpenPosition.main w)) = [OpenPosition.OpenPositionError msg]
     end.
Proof.
  intros Hin Hk Hbefore Hp Hne. revert Hin. wp_start (OpenPosition.main w).
  unfold OpenPosition.main, OpenPosition.open, OpenPosition.loadKeypairBytes.
  wp_run.
  all: intros Hin; in_trace Hin.
  all: match goal with H : Called _ = Called _ |- _ => injection H as <- <- _ end.
  all: match goal with
       | H : settle _ _ _ 0 _ = _ |- _ =>
           rewrite (settle_first w _ _ OpenPosition.maxRetries k p Hk Hbefore Hp Hne) in H;
           injection H as <- Hsame; rewrite Hsame in *
       end.
  all: try (exfalso; apply Hne; reflexivity).
  all: cbn [OpenPosition.failed OpenPosition.confirmed OpenPosition.errorMsg] in *;
       try discriminate.
  all: split; [observe_waiting; reflexivity|].
  all: observe.
  all: split; [by rewrite ?app_nil_r|].
  all: split; [intros Hwarn; in_trace Hwarn|].
  all: split; [reflexivity|]; eauto.
Qed.

Lemma open_position_first_settled_poll_decides_example :
  waiting (trace (OpenPosition.main open_failed_world)) = polls mainnet "Signature" 0 1
  /\ sleeps (trace (OpenPosition.main open_failed_world)) = replicate 1 2000
  /\ (ConsoleError "Confirmation timeout - check Solscan for status"
        ∉ trace (OpenPosition.main open_failed_world))
  /\ completion (OpenPosition.main open_failed_world) = Exited 1
  /\ stdout (trace (OpenPosition.main open_failed_world))
     = [OpenPosition.OpenPositionError
          ("Transaction failed: " +:+ stringified account_in_use)].
Proof.
  apply (open_position_first_settled_poll_decides open_failed_world
           mainnet "Signature" 0 (Failed account_in_use)).
  - apply (list_elem_of_lookup_2 _ 18%nat). vm_compute. reflexivity.
  - lia.
  - intros j Hj. lia.
  - vm_compute. reflexivity.
  - discriminate.
Defined.

(** open-position opens a position only on a range it has validated: every
    [openConcentratedPosition] it makes has bounds that are numbers with the
    lower one strictly below the upper one, parsed from the second and third
    argument; the slippage is 100 basis points; and the amount is the fourth
    argument, as token B when "--token-b" is among the arguments and as
    token A otherwise. *)
Theorem open_position_opens_only_a_valid_range
    (w : World) (whirlpool : string) (param : LiquidityParam)
    (lowerPrice upperPrice : number) (slippageBps : Z) :
  Called (openConcentratedPosition whirlpool param lowerPrice upperPrice slippageBps)
    ∈ trace (OpenPosition.main w) ->
  isNaN lowerPrice = false
  /\ isNaN upperPrice = false
  /\ number_ge lowerPrice upperPrice = false
  /\ slippageBps = 100
  /\ exists whirlpoolAddress arg1 arg2 arg3 rest tokenAmount,
       drop 2 (argv w) = whirlpoolAddress :: arg1 :: arg2 :: arg3 :: rest
       /\ oracle w (address whirlpoolAddress) = Returns whirlpool
       /\ lowerPrice = parseFloat w arg1
       /\ upperPrice = parseFloat w arg2
       /\ oracle w (BigInt arg3) = Returns tokenAmount
       /\ param = (if bool_decide ("--token-b" ∈ drop 2 (argv w))
                   then tokenB tokenAmount else tokenA tokenAmount).
Proof.
  intros Hin. revert Hin. wp_start (OpenPosition.main w).
  unfold OpenPosition.main, OpenPosition.open, OpenPosition.loadKeypairBytes.
  wp_run.
  all: intros Hin; in_trace Hin.
  all: match goal with H : Called _ = Called _ |- _ => injection H as -> -> -> -> -> end.
  all: match goal with
       | H : _ || _ || _ = false |- _ =>
           apply orb_false_iff in H as [H Hge]; apply orb_false_iff in H as [Hlo Hhi]
       end.
  all: do 4 (split; [done|]).
  all: eexists _, _, _, _, _, _; split; [reflexivity|].
  all: repeat split; try eassumption; reflexivity.
Qed.

Lemma open_position_opens_only_a_valid_range_example :
  isNaN (Finite 95) = false
  /\ isNaN (Finite 105) = false
  /\ number_ge (Finite 95) (Finite 105) = false
  /\ 100 = 100
  /\ exists whirlpoolAddress arg1 arg2 arg3 rest tokenAmount,
       drop 2 (argv open_timeout_world) = whirlpoolAddress :: arg1 :: arg2 :: arg3 :: rest
       /\ oracle open_timeout_world (address whirlpoolAddress) = Returns "Pool"
       /\ Finite 95 = parseFloat open_timeout_world arg1
       /\ Finite 105 = parseFloat open_timeout_world arg2
       /\ oracle open_timeout_world (BigInt arg3) = Returns tokenAmount
       /\ tokenA 1000000
          = (if bool_decide ("--token-b" ∈ drop 2 (argv open_timeout_world))
             then tokenB tokenAmount else tokenA tokenAmount).
Proof.
  apply (open_position_opens_only_a_valid_range open_timeout_world
           "Pool" (tokenA 1000000) (Finite 95) (Finite 105) 100).
  apply (list_elem_of_lookup_2 _ 10%nat). vm_compute. reflexivity.
Defined.

(** The only exception that escapes open-position is the one of the amount's
    conversion, which the script makes before its [try] block: the run ends
    in an uncaught exception exactly when there are four arguments and
    [BigInt] refuses the fourth; it has then done nothing else, and printed
    no result. *)
Theorem open_position_escapes_only_on_bad_amount (w : World) (msg : string) :
  completion (OpenPosition.main w) = Thrown msg
  <-> exists whirlpoolAddress arg1 arg2 arg3 rest,
        drop 2 (argv w) = whirlpoolAddress :: arg1 :: arg2 :: arg3 :: rest
        /\ oracle w (BigInt arg3) = Throws msg
        /\ trace (OpenPosition.main w) = [Called (BigInt arg3)].
Proof.
  split.
  - wp_start (OpenPosition.main w).
    unfold OpenPosition.main, OpenPosition.open, OpenPosition.loadKeypairBytes.
    wp_run.
    all: intros Hc; try discriminate Hc.
    injection Hc as ->. eexists _, _, _, _, _. split; [reflexivity|]. split; [assumption|reflexivity].
  - intros (a0 & a1 & a2 & a3 & rest & Hargs & Hthrow & _).
    unfold OpenPosition.main. rewrite Hargs. unfold call. rewrite Hthrow. reflexivity.
Qed.

Lemma open_position_escapes_only_on_bad_amount_example :
  completion (OpenPosition.main bad_amount_world)
  = Thrown "Cannot convert 1.5 to a BigInt".
Proof.
  apply (proj2 (open_position_escapes_only_on_bad_amount bad_amount_world
                  "Cannot convert 1.5 to a BigInt")).
  exists "Pool", "95", "105", "1.5", []. vm_compute. repeat split; reflexivity.
Defined.

(** ** More about the fetch scripts *)

(** fetch-pool and fetch-position only read: every call they make builds the
    RPC client, configures the SDK, derives an address, reads an account or
    converts a price; no key is loaded, nothing is signed and nothing is
    sent. *)
Theorem fetch_scripts_only_read (w : World) :
  Forall (fun c => reads_only c = true) (calls (trace (FetchPool.main w)))
  /\ Forall (fun c => reads_only c = true) (calls (trace (FetchPosition.main w))).
Proof.
  split.
  - wp_start (FetchPool.main w). unfold FetchPool.main, FetchPool.fetch.
    wp_run. all: cbn [calls]; repeat constructor.
  - wp_start (FetchPosition.main w).
    unfold FetchPosition.main, FetchPosition.snapshot, FetchPosition.fetchTokenDecimals.
    repeat first [wp_step | apply wp_promise_all; cbv beta iota].
    all: cbn [app calls]; repeat constructor.
Qed.

(** When fetch-pool exits, the code is 1 and standard output holds exactly
    one JSON object, {error: ...}: either the usage message, when the pool
    address is missing, with no call made; or the message of the exception
    thrown by the last call made. *)
Theorem fetch_pool_failures (w : World) (code : Z) :
  completion (FetchPool.main w) = Exited code ->
  code = 1
  /\ exists error,
       stdout (trace (FetchPool.main w)) = [JObject [("error", JString error)]]
       /\ ((error = "Usage: node fetch-pool.js <WHIRLPOOL_ADDRESS>"
            /\ truthy (argv w !! 2%nat) = None
            /\ calls (trace (FetchPool.main w)) = [])
           \/ exists c, last (calls (trace (FetchPool.main w))) = Some c
                        /\ oracle w c = Throws error).
Proof.
  intros Hc. revert Hc. wp_start (FetchPool.main w).
  unfold FetchPool.main, FetchPool.fetch.
  wp_run.
  all: intros Hc; try discriminate Hc; injection Hc as <-.
  all: split; [reflexivity|]; eexists; split; [reflexivity|].
  all: first [left; done | right; eexists; split; [reflexivity|eassumption]].
Qed.

Lemma fetch_pool_failures_example :
  completion (FetchPool.main missing_pool_world) = Exited 1
  /\ exists error,
       stdout (trace (FetchPool.main missing_pool_world))
       = [JObject [("error", JString error)]]
       /\ ((error = "Usage: node fetch-pool.js <WHIRLPOOL_ADDRESS>"
            /\ truthy (argv missing_pool_world !! 2%nat) = None
            /\ calls (trace (FetchPool.main missing_pool_world)) = [])
           \/ exists c, last (calls (trace (FetchPool.main missing_pool_world))) = Some c
                        /\ oracle missing_pool_world c = Throws error).
Proof.
  assert (completion (FetchPool.main missing_pool_world) = Exited 1) as H
    by (vm_compute; reflexivity).
  split; [exact H|]. exact (proj2 (fetch_pool_failures missing_pool_world 1 H)).
Defined.

(** When fetch-position does not end normally, its exit code is 1 and
    nothing is on standard output; and either the position mint is missing
    and no call was made, or some call the script made threw. *)
Theorem fetch_position_failures (w : World) :
  completion (FetchPosition.main w) <> Normal tt ->
  exit_code (FetchPosition.main w) = 1
  /\ stdout (trace (FetchPosition.main w)) = []
  /\ ((truthy (argv w !! 2%nat) = None /\ calls (trace (FetchPosition.main w)) = [])
      \/ exists c thrown,
           oracle w c = Throws thrown /\ Called c ∈ trace (FetchPosition.main w)).
Proof.
  unfold exit_code. wp_start (FetchPosition.main w).
  unfold FetchPosition.main, FetchPosition.snapshot, FetchPosition.fetchTokenDecimals.
  repeat first [wp_step | apply wp_promise_all; cbv beta iota].
  all: cbn [app fst snd]; intros Hfailed; try done.
  all: split; [reflexivity|]; split; [reflexivity|].
  all: first [left; done|right].
  all: eexists _, _; split; [eassumption|].
  all: repeat (apply elem_of_cons; first [left; reflexivity|right]).
Qed.

Lemma fetch_position_failures_example :
  exit_code (FetchPosition.main missing_pool_world) = 1
  /\ stdout (trace (FetchPosition.main missing_pool_world)) = []
  /\ ((truthy (argv missing_pool_world !! 2%nat) = None
       /\ calls (trace (FetchPosition.main missing_pool_world)) = [])
      \/ exists c thrown,
           oracle missing_pool_world c = Throws thrown
           /\ Called c ∈ trace (FetchPosition.main missing_pool_world)).
Proof.
  apply (fetch_position_failures missing_pool_world).
  vm_compute. discriminate.
Defined.

(** The snapshot fetch-position prints is consistent: the current, lower and
    upper prices are converted with the same pair of decimals, from the
    pool's square-root price and the position's two ticks, and the pool,
    liquidity and fees are those of the position it fetched. *)
Theorem fetch_position_prices_share_decimals (w : World) (snapshot : Json) :
  snapshot ∈ stdout (trace (FetchPosition.main w)) ->
  exists rpc positionAddress position pool decimalsA decimalsB
         currentPrice lowerPrice upperPrice,
    oracle w (fetchPosition rpc positionAddress) = Returns position
    /\ oracle w (fetchWhirlpool rpc (pos_whirlpool position)) = Returns pool
    /\ oracle w (sqrtPriceToPrice (sqrtPrice pool) decimalsA decimalsB) = Returns currentPrice
    /\ oracle w (tickIndexToPrice (tickLowerIndex position) decimalsA decimalsB)
       = Returns lowerPrice
    /\ oracle w (tickIndexToPrice (tickUpperIndex position) decimalsA decimalsB)
       = Returns upperPrice
    /\ field "currentPrice" snapshot = Some (JString (number_toString w currentPrice))
    /\ field "lowerPrice" snapshot = Some (JString (number_toString w lowerPrice))
    /\ field "upperPrice" snapshot = Some (JString (number_toString w upperPrice))
    /\ field "whirlpool" snapshot = Some (JString (pos_whirlpool position))
    /\ field "liquidity" snapshot = Some (JString (pretty (pos_liquidity position)))
    /\ field "feeOwedA" snapshot = Some (JString (pretty (feeOwedA position)))
    /\ field "feeOwedB" snapshot = Some (JString (pretty (feeOwedB position))).
Proof.
  intros Hin. revert Hin. wp_start (FetchPosition.main w).
  unfold FetchPosition.main, FetchPosition.snapshot, FetchPosition.fetchTokenDecimals.
  repeat first [wp_step | apply wp_promise_all; cbv beta iota].
  all: cbn [app fst snd]; observe.
  all: intros Hin; try (by apply elem_of_nil in Hin).
  all: apply list_elem_of_singleton in Hin as ->.
  all: eexists _, _, _, _, _, _, _, _, _.
  all: do 5 (split; [eassumption|]).
  all: repeat split; reflexivity.
Qed.

Lemma fetch_position_prices_share_decimals_example :
  fetch_world_snapshot ∈ stdout (trace (FetchPosition.main fetch_world))
  /\ exists rpc positionAddress position pool decimalsA decimalsB
            currentPrice lowerPrice upperPrice,
    oracle fetch_world (fetchPosition rpc positionAddress) = Returns position
    /\ oracle fetch_world (fetchWhirlpool rpc (pos_whirlpool position)) = Returns pool
    /\ oracle fetch_world (sqrtPriceToPrice (sqrtPrice pool) decimalsA decimalsB)
       = Returns currentPrice
    /\ oracle fetch_world (tickIndexToPrice (tickLowerIndex position) decimalsA decimalsB)
       = Returns lowerPrice
    /\ oracle fetch_world (tickIndexToPrice (tickUpperIndex position) decimalsA decimalsB)
       = Returns upperPrice
    /\ field "currentPrice" fetch_world_snapshot
       = Some (JString (number_toString fetch_world currentPrice))
    /\ field "lowerPrice" fetch_world_snapshot
       = Some (JString (number_toString fetch_world lowerPrice))
    /\ field "upperPrice" fetch_world_snapshot
       = Some (JString (number_toString fetch_world upperPrice))
    /\ field "whirlpool" fetch_world_snapshot = Some (JString (pos_whirlpool position))
    /\ field "liquidity" fetch_world_snapshot
       = Some (JString (pretty (pos_liquidity position)))
    /\ field "feeOwedA" fetch_world_snapshot = Some (JString (pretty (feeOwedA position)))
    /\ field "feeOwedB" fetch_world_snapshot = Some (JString (pretty (feeOwedB position))).
Proof.
  assert (fetch_world_snapshot ∈ stdout (trace (FetchPosition.main fetch_world))) as Hin.
  { apply (list_elem_of_lookup_2 _ 0%nat). vm_compute. reflexivity. }
  split; [exact Hin|].
  exact (fetch_position_prices_share_decimals fetch_world fetch_world_snapshot Hin).
Defined.

(** ** Missing arguments *)

(** Started without their arguments, the four scripts make no call and exit
    with code 1: withdraw-all, fetch-pool and open-position print their usage
    as a failure result on standard output (withdraw-all with an empty
    position mint), fetch-position prints it on standard error. *)
Theorem scripts_without_arguments (w : World) :
  truthy (argv w !! 2%nat) = None ->
  (length (argv w) < 6)%nat ->
  WithdrawAll.main w
  = ([ConsoleLog (WithdrawAll.WithdrawError
                    "Usage: node withdraw-all.js <POSITION_MINT>" "") 0],
     Exited 1)
  /\ FetchPool.main w
     = ([ConsoleLog (JObject [("error",
                               JString "Usage: node fetch-pool.js <WHIRLPOOL_ADDRESS>")]) 0],
        Exited 1)
  /\ FetchPosition.main w
     = ([ConsoleError "Usage: node fetch-position.js <POSITION_MINT>"], Exited 1)
  /\ exists usage,
       OpenPosition.main w = ([ConsoleLog (OpenPosition.OpenPositionError usage) 0], Exited 1)
       /\ String.prefix "Usage: node open-position.js" usage = true.
Proof.
  intros Hargv Hlen.
  unfold WithdrawAll.main, FetchPool.main, FetchPosition.main. rewrite Hargv.
  do 3 (split; [reflexivity|]).
  eexists. unfold OpenPosition.main.
  pose proof (length_drop (argv w) 2) as Hdrop.
  destruct (drop 2 (argv w)) as [|a0 [|a1 [|a2 [|a3 rest]]]] eqn:Hargs.
  1-4: split; reflexivity.
  cbn [length] in Hdrop. lia.
Qed.

Lemma scripts_without_arguments_example :
  WithdrawAll.main no_arguments_world
  = ([ConsoleLog (WithdrawAll.WithdrawError
                    "Usage: node withdraw-all.js <POSITION_MINT>" "") 0],
     Exited 1)
  /\ FetchPool.main no_arguments_world
     = ([ConsoleLog (JObject [("error",
                               JString "Usage: node fetch-pool.js <WHIRLPOOL_ADDRESS>")]) 0],
        Exited 1)
  /\ FetchPosition.main no_arguments_world
     = ([ConsoleError "Usage: node fetch-position.js <POSITION_MINT>"], Exited 1)
  /\ exists usage,
       OpenPosition.main no_arguments_world
       = ([ConsoleLog (OpenPosition.OpenPositionError usage) 0], Exited 1)
       /\ String.prefix "Usage: node open-position.js" usage = true.
Proof.
  apply (scripts_without_arguments no_arguments_world).
  - vm_compute. reflexivity.
  - vm_compute. lia.
Defined.

(** ** The orchestrator core *)

Section OrchestratorProofs.
Import Orchestrator.
Local Open Scope Q_scope.

Lemma distance_is_min (s : PositionSnapshot) :
  distance_to_nearer_boundary s
  == Qmin (Qabs (currentPrice s - lowerPrice s)) (Qabs (upperPrice s - currentPrice s)).
Proof.
  unfold distance_to_nearer_boundary.
  destruct (Qle_bool _ _) eqn:Hle.
  - apply Qle_bool_iff in Hle. symmetry. by apply Q.min_l.
  - symmetry. apply Q.min_r. apply Qlt_le_weak, Qnot_le_lt.
    intros Hle'. apply Qle_bool_iff in Hle'. congruence.
Qed.

Lemma evaluate_in_range (s : PositionSnapshot) (config : RebalanceConfig) :
  inRange s = true ->
  evaluate (Some s) config = NearEdge
  <-> distance_to_nearer_boundary s / range_width s <= edge_threshold_pct config / 100.
Proof.
  intros Hin. unfold evaluate. rewrite Hin. cbn [negb andb].
  rewrite <- Qle_bool_iff.
  destruct (Qle_bool _ _); split; congruence.
Qed.

End OrchestratorProofs.

(** C6: for a snapshot in range, the Evaluator answers [NearEdge] exactly
    when the distance from the current price to the nearer boundary, divided
    by the width of the range, is at most [edge_threshold_pct / 100]; a
    snapshot exactly at the threshold is near the edge. *)
Theorem evaluate_near_edge_iff
    (s : Orchestrator.PositionSnapshot) (config : Orchestrator.RebalanceConfig) :
  Orchestrator.inRange s = true ->
  let distance :=
    Qmin (Qabs (Orchestrator.currentPrice s - Orchestrator.lowerPrice s))
         (Qabs (Orchestrator.upperPrice s - Orchestrator.currentPrice s)) in
  let width := (Orchestrator.upperPrice s - Orchestrator.lowerPrice s)%Q in
  let threshold := (Orchestrator.edge_threshold_pct config / 100)%Q in
  (Orchestrator.evaluate (Some s) config = Orchestrator.NearEdge
   <-> (distance / width <= threshold)%Q)
  /\ ((distance / width == threshold)%Q ->
      Orchestrator.evaluate (Some s) config = Orchestrator.NearEdge).
Proof.
  intros Hin distance width threshold.
  assert (Orchestrator.evaluate (Some s) config = Orchestrator.NearEdge
          <-> (distance / width <= threshold)%Q) as Hiff.
  { rewrite (evaluate_in_range s config Hin), (distance_is_min s). reflexivity. }
  split; [exact Hiff|].
  intros Heq. apply Hiff. rewrite Heq. apply Qle_refl.
Qed.

(** C5: for a positive price and a positive width, the Range Selector
    returns [currentPrice * (1 - range_width_pct/200)] and
    [currentPrice * (1 + range_width_pct/200)], the first below the price and
    the second above it; for width 10 at price 100 they are 95 and 105. *)
Theorem selectRange_formula_and_order
    (currentPrice : Q) (config : Orchestrator.RebalanceConfig) :
  (0 < currentPrice)%Q ->
  (0 < Orchestrator.range_width_pct config)%Q ->
  exists lowerPrice upperPrice,
    Orchestrator.selectRange currentPrice config = inr (lowerPrice, upperPrice)
    /\ lowerPrice = (currentPrice * (1 - Orchestrator.range_width_pct config / 200))%Q
    /\ upperPrice = (currentPrice * (1 + Orchestrator.range_width_pct config / 200))%Q
    /\ (lowerPrice < currentPrice)%Q
    /\ (currentPrice < upperPrice)%Q
    /\ ((currentPrice == 100)%Q -> (Orchestrator.range_width_pct config == 10)%Q ->
        (lowerPrice == 95)%Q /\ (upperPrice == 105)%Q).
Proof.
  intros Hp Hw. unfold Orchestrator.selectRange.
  destruct (Qle_bool (Orchestrator.range_width_pct config) 0) eqn:Hle.
  { apply Qle_bool_iff in Hle. exfalso. eapply Qlt_not_le; eassumption. }
  set (w := Orchestrator.range_width_pct config) in *.
  do 2 eexists. split; [reflexivity|]. split; [reflexivity|]. split; [reflexivity|].
  assert (0 < currentPrice * w)%Q as Hpw by (apply Qmult_lt_0_compat; assumption).
  split; [|split].
  - assert (currentPrice * (1 - w / 200) == currentPrice - currentPrice * w * (1 # 200))%Q
      as -> by field.
    lra.
  - assert (currentPrice * (1 + w / 200) == currentPrice + currentPrice * w * (1 # 200))%Q
      as -> by field.
    lra.
  - intros Hp100 Hw10. rewrite Hp100, Hw10. split; reflexivity.
Qed.

(** C1: the Workflow's withdraw step on a position whose observed liquidity
    is zero succeeds as a no-op: it does not call the Executor's withdraw and
    does not halt; it persists the state with [pending_step] advanced to the
    swap step and everything else but the position mint as it was.  A
    Workflow resumed at the withdraw step on such a position therefore never
    withdraws. *)
Theorem withdraw_step_zero_liquidity_is_a_noop
    (c : Orchestrator.Collaborators) (config : Orchestrator.RebalanceConfig)
    (st : Orchestrator.WorkflowState) (mint : string) :
  Orchestrator.current_position_mint st = Some mint ->
  Orchestrator.fetchLiquidity c mint = Returns 0%Z ->
  (exists st',
     Orchestrator.step_withdraw c st
     = ([Orchestrator.FetchedLiquidity mint; Orchestrator.Saved st'], Returns st')
     /\ Orchestrator.pending_step st' = Orchestrator.swap
     /\ Orchestrator.current_position_mint st' = None
     /\ Orchestrator.withdrawn_amounts st' = Orchestrator.withdrawn_amounts st
     /\ Orchestrator.pending_rebalance st' = Orchestrator.pending_rebalance st
     /\ Orchestrator.last_rebalance st' = Orchestrator.last_rebalance st)
  /\ (Orchestrator.pending_step st = Orchestrator.withdraw ->
      forall m, Orchestrator.Withdrew m ∉ (Orchestrator.resume c config st).1).
Proof.
  intros Hmint Hzero.
  assert (Orchestrator.step_withdraw c st
          = ([Orchestrator.FetchedLiquidity mint;
              Orchestrator.Saved
                {| Orchestrator.current_position_mint := None;
                   Orchestrator.last_rebalance := Orchestrator.last_rebalance st;
                   Orchestrator.pending_rebalance := Orchestrator.pending_rebalance st;
                   Orchestrator.pending_step := Orchestrator.swap;
                   Orchestrator.withdrawn_amounts := Orchestrator.withdrawn_amounts st |}],
             Returns
               {| Orchestrator.current_position_mint := None;
                  Orchestrator.last_rebalance := Orchestrator.last_rebalance st;
                  Orchestrator.pending_rebalance := Orchestrator.pending_rebalance st;
                  Orchestrator.pending_step := Orchestrator.swap;
                  Orchestrator.withdrawn_amounts := Orchestrator.withdrawn_amounts st |}))
    as Hstep.
  { unfold Orchestrator.step_withdraw. rewrite Hmint.
    unfold Orchestrator.did, Orchestrator.and_then. rewrite Hzero.
    destruct (decide (0 = 0)) as [_|Hne]; [reflexivity|contradiction]. }
  split.
  { eexists. split; [exact Hstep|]. repeat split. }
  intros Hpending m.
  unfold Orchestrator.resume. rewrite Hpending.
  destruct (Orchestrator.dry_run config).
  { cbn. intros Hin. in_trace Hin. }
  rewrite Hstep.
  unfold Orchestrator.step_swap, Orchestrator.step_open, Orchestrator.save,
    Orchestrator.did, Orchestrator.and_then.
  cbn [Orchestrator.withdrawn_amounts].
  destruct (Orchestrator.withdrawn_amounts st) as [amounts|];
    [destruct (Qle_bool _ _) eqn:Hvalue;
       [destruct (Orchestrator.swap_tokens _ _ _)|]|];
    cbn [app fst snd];
    try destruct (Orchestrator.fetchCurrentPrice _ _);
    try destruct (Orchestrator.selectRange _ _) as [[]|[lower upper]];
    try destruct (Orchestrator.openPosition _ _ _ _);
    cbn [app fst snd].
  all: intros Hin; in_trace Hin.
Qed.

(** A rebalance that resumes at the withdraw step on an emptied position. *)
Lemma withdraw_step_zero_liquidity_example :
  (exists st',
     Orchestrator.step_withdraw drained_collaborators withdraw_pending_state
     = ([Orchestrator.FetchedLiquidity "PositionMint"; Orchestrator.Saved st'], Returns st')
     /\ Orchestrator.pending_step st' = Orchestrator.swap
     /\ Orchestrator.current_position_mint st' = None
     /\ Orchestrator.withdrawn_amounts st'
        = Orchestrator.withdrawn_amounts withdraw_pending_state
     /\ Orchestrator.pending_rebalance st'
        = Orchestrator.pending_rebalance withdraw_pending_state
     /\ Orchestrator.last_rebalance st'
        = Orchestrator.last_rebalance withdraw_pending_state)
  /\ (Orchestrator.pending_step withdraw_pending_state = Orchestrator.withdraw ->
      forall m, Orchestrator.Withdrew m
                ∉ (Orchestrator.resume drained_collaborators example_config
                     withdraw_pending_state).1).
Proof.
  apply (withdraw_step_zero_liquidity_is_a_noop drained_collaborators example_config
           withdraw_pending_state "PositionMint"); reflexivity.
Defined.

(** C4: a Workflow re-invoked on a persisted state whose rebalance is
    pending at the swap step never runs the withdraw step again (no liquidity
    check, no withdrawal); the first thing it does is the swap step, on the
    stored [withdrawn_amounts]. *)
Theorem workflow_resumes_at_swap
    (c : Orchestrator.Collaborators) (config : Orchestrator.RebalanceConfig)
    (decision : Orchestrator.Decision) (force_rebalance : bool)
    (st : Orchestrator.WorkflowState) :
  Orchestrator.pending_rebalance st = true ->
  Orchestrator.pending_step st = Orchestrator.swap ->
  let actions := (Orchestrator.run c config decision force_rebalance st).1 in
  (forall mint, Orchestrator.Withdrew mint ∉ actions)
  /\ (forall mint, Orchestrator.FetchedLiquidity mint ∉ actions)
  /\ (forall amounts,
        Orchestrator.withdrawn_amounts st = Some amounts ->
        let plan := Orchestrator.plan_swap c amounts config in
        head actions
        = Some (if Orchestrator.dry_run config then Orchestrator.Logged Orchestrator.swap
                else if Qle_bool (Orchestrator.min_swap_value_usd config)
                                 (Orchestrator.usd_value plan)
                     then Orchestrator.Swapped plan (Orchestrator.slippage_bps config)
                     else Orchestrator.SkippedSwap plan)).
Proof.
  intros Hpending Hstep actions. subst actions.
  unfold Orchestrator.run, Orchestrator.resume. rewrite Hpending, Hstep.
  destruct (Orchestrator.dry_run config).
  { cbn. split; [intros mint Hin; in_trace Hin|].
    split; [intros mint Hin; in_trace Hin|]. reflexivity. }
  unfold Orchestrator.step_swap.
  destruct (Orchestrator.withdrawn_amounts st) as [amounts|].
  2:{ cbn. split; [intros mint Hin; in_trace Hin|].
      split; [intros mint Hin; in_trace Hin|]. intros amounts [=]. }
  unfold Orchestrator.step_open, Orchestrator.save, Orchestrator.did, Orchestrator.and_then.
  destruct (Qle_bool _ _) eqn:Hvalue;
    [destruct (Orchestrator.swap_tokens _ _ _)|];
    cbn [app fst snd];
    try destruct (Orchestrator.fetchCurrentPrice _ _);
    try destruct (Orchestrator.selectRange _ _) as [[]|[lower upper]];
    try destruct (Orchestrator.openPosition _ _ _ _);
    cbn [app fst snd].
  all: split; [intros mint Hin; in_trace Hin|].
  all: split; [intros mint Hin; in_trace Hin|].
  all: intros amounts' [= <-]; cbv zeta; rewrite Hvalue; reflexivity.
Qed.

(** A position on (90, 110) with the price at 92 is exactly at the 10%
    threshold. *)
Lemma evaluate_near_edge_example :
  Orchestrator.inRange edge_snapshot = true
  /\ (Orchestrator.evaluate (Some edge_snapshot) example_config = Orchestrator.NearEdge
      <-> (Qmin (Qabs (92 - 90)) (Qabs (110 - 92)) / (110 - 90) <= 10 / 100)%Q)
  /\ ((Qmin (Qabs (92 - 90)) (Qabs (110 - 92)) / (110 - 90) == 10 / 100)%Q ->
      Orchestrator.evaluate (Some edge_snapshot) example_config = Orchestrator.NearEdge).
Proof.
  split; [reflexivity|].
  apply (evaluate_near_edge_iff edge_snapshot example_config). reflexivity.
Defined.

(** Width 10 at price 100. *)
Lemma selectRange_example :
  exists lowerPrice upperPrice,
    Orchestrator.selectRange 100 example_config = inr (lowerPrice, upperPrice)
    /\ lowerPrice = (100 * (1 - 10 / 200))%Q
    /\ upperPrice = (100 * (1 + 10 / 200))%Q
    /\ (lowerPrice < 100)%Q
    /\ (100 < upperPrice)%Q
    /\ ((100 == 100)%Q -> (10 == 10)%Q -> (lowerPrice == 95)%Q /\ (upperPrice == 105)%Q).
Proof.
  apply (selectRange_formula_and_order 100 example_config); reflexivity.
Defined.

(** Resuming [swap_pending_state]. *)
Lemma workflow_resumes_at_swap_example :
  let actions :=
    (Orchestrator.run example_collaborators example_config Orchestrator.DecisionNone
       false swap_pending_state).1 in
  (forall mint, Orchestrator.Withdrew mint ∉ actions)
  /\ (forall mint, Orchestrator.FetchedLiquidity mint ∉ actions)
  /\ (forall amounts,
        Orchestrator.withdrawn_amounts swap_pending_state = Some amounts ->
        let plan := Orchestrator.plan_swap example_collaborators amounts example_config in
        head actions
        = Some (if Orchestrator.dry_run example_config
                then Orchestrator.Logged Orchestrator.swap
                else if Qle_bool (Orchestrator.min_swap_value_usd example_config)
                                 (Orchestrator.usd_value plan)
                     then Orchestrator.Swapped plan (Orchestrator.slippage_bps example_config)
                     else Orchestrator.SkippedSwap plan)).
Proof.
  apply (workflow_resumes_at_swap example_collaborators example_config
           Orchestrator.DecisionNone false swap_pending_state);
    reflexivity.
Defined.
